(** * A shallow embedding of the recallrai Python SDK repository

    The repository ships the release script [bump_version.sh]
    (scripts/release.sh), the package metadata [pyproject.toml], the README
    and an example notebook.  The release script is embedded from its source
    line by line.  The SDK package itself (the [recallrai] Python modules:
    HTTP client, error mapping, resource handles) is not among the sources;
    the parts of it the specification talks about are modelled from the
    specification and marked as such. *)

From stdpp Require Import gmap strings list.
From Stdlib Require Import ZArith Ascii String.
From Stdlib Require DecimalN DecimalPos DecimalFacts.

Open Scope string_scope.
Open Scope Z_scope.

(* ===================================================================== *)
(** ** Release script: text utilities *)
(* ===================================================================== *)

Definition dq : ascii := "034".
Definition dq_s : string := String dq EmptyString.
Definition newline : ascii := "010".

(** [strip_prefix p s] is [Some r] when [s = p ++ r]. *)
Fixpoint strip_prefix (p s : string) : option string :=
  match p, s with
  | EmptyString, _ => Some s
  | String a p', String b s' => if ascii_dec a b then strip_prefix p' s' else None
  | String _ _, EmptyString => None
  end.

(** The longest prefix without a double quote, and what follows it. *)
Fixpoint span_nonquote (s : string) : string * string :=
  match s with
  | EmptyString => (EmptyString, EmptyString)
  | String c s' =>
      if ascii_dec c dq then (EmptyString, s)
      else let (r, rest) := span_nonquote s' in (String c r, rest)
  end.

(** The fields of [s] delimited by every occurrence of [c]. *)
Fixpoint split_at (c : ascii) (s : string) : list string :=
  match s with
  | EmptyString => [EmptyString]
  | String a s' =>
      if ascii_dec a c then EmptyString :: split_at c s'
      else match split_at c s' with
           | f :: fs => String a f :: fs
           | [] => [String a EmptyString]
           end
  end.

Fixpoint first_line (s : string) : string :=
  match s with
  | EmptyString => EmptyString
  | String c s' => if ascii_dec c newline then EmptyString else String c (first_line s')
  end.

(* ===================================================================== *)
(** ** Release script: reading the current version (lines 44-51) *)
(* ===================================================================== *)

Definition version_key : string := "version = " ++ dq_s.
Definition init_key : string := "__version__ = " ++ dq_s.

(** The grep of line 44 (pattern: start of line, [version = ], a double
    quote, one or more non-quote characters, a double quote). *)
Definition grep_version_line (l : string) : bool :=
  match strip_prefix version_key l with
  | Some r =>
      match span_nonquote r with
      | (String _ _, String _ _) => true
      | _ => false
      end
  | None => false
  end.

(** [cut] with the double quote as delimiter, field 2; a line without the
    delimiter is printed whole. *)
Definition cut_f2 (l : string) : string :=
  match split_at dq l with
  | _ :: f :: _ => f
  | _ => l
  end.

(** [CURRENT_VERSION=$(grep ... pyproject.toml | cut ...)]: the selected
    fields joined by newlines (command substitution drops the final one).
    Without pipefail a missing file only yields an empty output. *)
Definition current_version (files : gmap string (list string)) : string :=
  match files !! "pyproject.toml" with
  | Some ls => concat (String newline EmptyString) (map cut_f2 (List.filter grep_version_line ls))
  | None => EmptyString
  end.

(** [IFS='.' read -r -a VERSION_PARTS <<< "$CURRENT_VERSION"]: the first
    line, split at every dot; a final dot ends the last field without
    opening an empty one. *)
Definition drop_trailing_empty (fs : list string) : list string :=
  match rev fs with
  | EmptyString :: r => rev r
  | _ => fs
  end.

Definition read_fields (s : string) : list string :=
  drop_trailing_empty (split_at "." (first_line s)).

(* ===================================================================== *)
(** ** Release script: bash arithmetic (lines 54-63) *)
(* ===================================================================== *)

(** Bash evaluates [$((X + 1))] in [intmax_t]: 64-bit two's complement. *)
Definition int64_wrap (z : Z) : Z :=
  let m := z mod 2 ^ 64 in if m <? 2 ^ 63 then m else m - 2 ^ 64.

(** Digit value of an alphanumeric character, as in bash's [strlong]. *)
Definition digit_of (c : ascii) : option Z :=
  let n := Z.of_nat (nat_of_ascii c) in
  if (48 <=? n)%Z && (n <=? 57)%Z then Some (n - 48)%Z
  else if (97 <=? n)%Z && (n <=? 122)%Z then Some (n - 87)%Z
  else if (65 <=? n)%Z && (n <=? 90)%Z then Some (n - 55)%Z
  else None.

Definition is_digit (c : ascii) : bool :=
  let n := nat_of_ascii c in (48 <=? n)%nat && (n <=? 57)%nat.

Fixpoint strlong_loop (base acc : Z) (s : string) : option Z :=
  match s with
  | EmptyString => Some acc
  | String c s' =>
      match digit_of c with
      | Some d => if (d <? base)%Z then strlong_loop base (int64_wrap (acc * base + d)) s' else None
      | None => None
      end
  end.

(** The value of a shell variable used as an arithmetic operand: empty is
    0; a literal with a leading [0] is octal ([0x]: hexadecimal), otherwise
    decimal; a digit out of range for the base is an evaluation error
    ("value too great for base").  Values that are not a single numeric
    literal are outside this model and read as an evaluation error, where
    bash would evaluate them as an expression (a name is a variable, 0 when
    unset); the theorems use this function on digit strings only. *)
Definition arith_value (v : string) : option Z :=
  match v with
  | EmptyString => Some 0%Z
  | String c r =>
      if ascii_dec c "0" then
        match r with
        | EmptyString => Some 0%Z
        | String x r' =>
            if Ascii.eqb x "x" || Ascii.eqb x "X" then strlong_loop 16 0 r'
            else strlong_loop 8 0 r
        end
      else if is_digit c then strlong_loop 10 0 v
      else None
  end.

Fixpoint uint_string (d : Decimal.uint) : string :=
  match d with
  | Decimal.Nil => EmptyString
  | Decimal.D0 d => String "0" (uint_string d)
  | Decimal.D1 d => String "1" (uint_string d)
  | Decimal.D2 d => String "2" (uint_string d)
  | Decimal.D3 d => String "3" (uint_string d)
  | Decimal.D4 d => String "4" (uint_string d)
  | Decimal.D5 d => String "5" (uint_string d)
  | Decimal.D6 d => String "6" (uint_string d)
  | Decimal.D7 d => String "7" (uint_string d)
  | Decimal.D8 d => String "8" (uint_string d)
  | Decimal.D9 d => String "9" (uint_string d)
  end.

Definition N_dec (n : N) : string := uint_string (N.to_uint n).

(** How bash prints an arithmetic result ([%jd]). *)
Definition Z_dec (z : Z) : string :=
  if (z <? 0)%Z then "-" ++ N_dec (Z.to_N (- z)) else N_dec (Z.to_N z).

(** [X=$((X + 1))]. *)
Definition incr (v : string) : option string :=
  match arith_value v with
  | Some z => Some (Z_dec (int64_wrap (z + 1)))
  | None => None
  end.

(** Lines 54-63: only the bumped component is evaluated arithmetically;
    the others are copied as strings or set to the literal 0. *)
Definition bump_parts (part major minor patch : string) : option (string * string * string) :=
  if String.eqb part "major" then
    match incr major with Some M => Some (M, "0", "0") | None => None end
  else if String.eqb part "minor" then
    match incr minor with Some m => Some (major, m, "0") | None => None end
  else if String.eqb part "patch" then
    match incr patch with Some p => Some (major, minor, p) | None => None end
  else Some (major, minor, patch).

(** Line 65: [NEW_VERSION="${MAJOR}.${MINOR}.${PATCH}"], from the current
    version string.  [None] is an arithmetic evaluation error. *)
Definition new_version (part current : string) : option string :=
  let fs := read_fields current in
  match bump_parts part (nth 0 fs EmptyString) (nth 1 fs EmptyString) (nth 2 fs EmptyString) with
  | Some (M, m, p) => Some (M ++ "." ++ m ++ "." ++ p)
  | None => None
  end.

(* ===================================================================== *)
(** ** Release script: the two [sed -i] substitutions (lines 69, 73) *)
(* ===================================================================== *)

(** The right-hand side of an [s] command, after the shell has inserted
    [$NEW_VERSION] into it: [&] stands for the matched text.  An unescaped
    slash ends the command early and makes sed reject the script.  A
    backslash escape, which GNU sed accepts, is outside this model and is
    reported as a rejected script as well; the theorems use versions
    without backslashes. *)
Inductive rhs_piece := RLit (c : ascii) | RMatch.

Fixpoint sed_rhs (rhs : string) : option (list rhs_piece) :=
  match rhs with
  | EmptyString => Some []
  | String c r =>
      if ascii_dec c "/" then None
      else if ascii_dec c "092" then None
      else match sed_rhs r with
           | Some ps => Some ((if ascii_dec c "&" then RMatch else RLit c) :: ps)
           | None => None
           end
  end.

Fixpoint expand (ps : list rhs_piece) (matched : string) : string :=
  match ps with
  | [] => EmptyString
  | RLit c :: ps' => String c (expand ps' matched)
  | RMatch :: ps' => matched ++ expand ps' matched
  end.

(** A match of [KEY"[^"]*"] at the start of [s]: the matched text and the
    rest of the line ([[^"]*] stops at the first quote). *)
Definition match_assign (key s : string) : option (string * string) :=
  match strip_prefix key s with
  | Some r =>
      match span_nonquote r with
      | (v, String _ rest) => Some (key ++ v ++ dq_s, rest)
      | (_, EmptyString) => None
      end
  | None => None
  end.

(** Line 69: the pattern is anchored ([^version = ...]). *)
Definition sed_anchored (key : string) (ps : list rhs_piece) (l : string) : string :=
  match match_assign key l with
  | Some (m, rest) => expand ps m ++ rest
  | None => l
  end.

(** Line 73: the leftmost occurrence on each line is replaced. *)
Fixpoint sed_leftmost (key : string) (ps : list rhs_piece) (l : string) : string :=
  match match_assign key l with
  | Some (m, rest) => expand ps m ++ rest
  | None =>
      match l with
      | EmptyString => EmptyString
      | String c l' => String c (sed_leftmost key ps l')
      end
  end.

(* ===================================================================== *)
(** ** Release script: the repository and the git commands *)
(* ===================================================================== *)

(** Files are lists of lines.  [index] is the staging area, [head] the
    last commit; pushes are recorded by ref name.  The remote [origin] is
    described by the refs it refuses to update (a rejected non-fast-forward
    push of main, a tag it already holds, a hook that declines). *)
Record repo := mk_repo {
  worktree : gmap string (list string);
  index : gmap string (list string);
  head : gmap string (list string);
  tags : list (string * string);
  pushed : list string;
  remote_refuses : list string
}.

Definition pyproject_path : string := "pyproject.toml".
Definition init_path : string := "recallrai/__init__.py".

Definition set_worktree (r : repo) (w : gmap string (list string)) : repo :=
  mk_repo w (index r) (head r) (tags r) (pushed r) (remote_refuses r).

(** [git diff --quiet]: succeeds when every tracked file of the worktree
    equals its staged version (the worktree is compared with the index). *)
Definition git_diff_quiet (r : repo) : bool :=
  forallb (fun '(p, c) => bool_decide (worktree r !! p = Some c)) (map_to_list (index r)).

(** [sed -i SCRIPT FILE] with the line function of the script: exit 1 when
    sed rejects the script, exit 2 when the file cannot be read. *)
Definition sed_in_place (path : string) (line_fn : list rhs_piece -> string -> string)
    (rhs : string) (r : repo) : Z + repo :=
  match sed_rhs rhs with
  | None => inl 1
  | Some ps =>
      match worktree r !! path with
      | None => inl 2
      | Some ls => inr (set_worktree r (<[path := map (line_fn ps) ls]> (worktree r)))
      end
  end.

(** [git add P1 P2]: stages the worktree version of each path; a path
    known to neither the worktree nor the index is a fatal pathspec error. *)
Definition stage (r : repo) (p : string) : gmap string (list string) :=
  match worktree r !! p with
  | Some c => <[p := c]> (index r)
  | None => delete p (index r)
  end.

Definition git_add (ps : list string) (r : repo) : Z + repo :=
  if forallb (fun p => bool_decide (is_Some (worktree r !! p) \/ is_Some (index r !! p))) ps
  then inr (mk_repo (worktree r)
                    (foldl (fun ix p => stage (mk_repo (worktree r) ix (head r) (tags r) (pushed r)
                                                       (remote_refuses r)) p) (index r) ps)
                    (head r) (tags r) (pushed r) (remote_refuses r))
  else inl 128.

(** [git commit]: fails with status 1 when nothing is staged. *)
Definition git_commit (r : repo) : Z + repo :=
  if bool_decide (index r = head r) then inl 1
  else inr (mk_repo (worktree r) (index r) (index r) (tags r) (pushed r) (remote_refuses r)).

(** [refname_disposition] of git's refs.c: 0 an ordinary character, 1 the
    end of a component ('/'), 2 '.', 3 '{', 4 a character no refname may
    hold (controls, space, DEL, and [~ ^ : ? [ \]), 5 '*'.  Shell
    arguments hold no NUL byte. *)
Definition refname_disposition (c : ascii) : nat :=
  let n := nat_of_ascii c in
  if (n =? 47)%nat then 1
  else if (n =? 46)%nat then 2
  else if (n =? 123)%nat then 3
  else if (n <? 33)%nat || (n =? 58)%nat || (n =? 63)%nat || (n =? 91)%nat || (n =? 92)%nat
          || (n =? 94)%nat || (n =? 126)%nat || (n =? 127)%nat then 4
  else if (n =? 42)%nat then 5
  else 0.

(** The character loop of [check_refname_component] over one component,
    [last] being the previous character: ".." and "@{" are refused, as
    are the characters of disposition 4 and, without the pattern flag,
    '*'. *)
Fixpoint refname_component_chars (last : ascii) (s : string) : bool :=
  match s with
  | EmptyString => true
  | String c s' =>
      match refname_disposition c with
      | 0%nat => refname_component_chars c s'
      | 2%nat => negb (Ascii.eqb last ".") && refname_component_chars c s'
      | 3%nat => negb (Ascii.eqb last "@") && refname_component_chars c s'
      | _ => false
      end
  end.

Fixpoint ends_with (suf s : string) : bool :=
  String.eqb s suf || match s with EmptyString => false | String _ s' => ends_with suf s' end.

Fixpoint last_char (s : string) : option ascii :=
  match s with
  | EmptyString => None
  | String c EmptyString => Some c
  | String _ s' => last_char s'
  end.

(** [check_refname_component]: a component is refused when it is empty,
    holds a refused character sequence, starts with '.' or ends with
    ".lock". *)
Definition refname_component_ok (comp : string) : bool :=
  refname_component_chars "000" comp &&
  negb (String.eqb comp "") &&
  negb (match comp with String "." _ => true | _ => false end) &&
  negb (ends_with ".lock" comp).

(** [check_refname_format] without flags: the name is not "@", each
    component (the text between slashes) is accepted, the name does not
    end with '.', and it has at least two components. *)
Definition check_refname_format (refname : string) : bool :=
  negb (String.eqb refname "@") &&
  forallb refname_component_ok (split_at "/" refname) &&
  negb (match last_char refname with Some c => Ascii.eqb c "." | None => false end) &&
  (2 <=? List.length (split_at "/" refname))%nat.

(** [check_tag_ref] of [git tag]: the name does not start with '-', is not
    "HEAD", and refs/tags/NAME is a valid refname. *)
Definition tag_name_ok (name : string) : bool :=
  negb (match name with String "-" _ => true | _ => false end) &&
  negb (String.eqb name "HEAD") &&
  check_refname_format ("refs/tags/" ++ name).

(** [isspace] of git's character table: space, tab, LF and CR. *)
Definition git_isspace (c : ascii) : bool :=
  Ascii.eqb c " " || Ascii.eqb c "009" || Ascii.eqb c "010" || Ascii.eqb c "013".

(** A line without its trailing whitespace. *)
Fixpoint rstrip (s : string) : string :=
  match s with
  | EmptyString => EmptyString
  | String c s' =>
      let t := rstrip s' in
      if String.eqb t "" && git_isspace c then EmptyString else String c t
  end.

(** The loop of [strbuf_stripspace] with the comment prefix "#": comment
    lines are dropped, each line loses its trailing whitespace, empty
    lines before the first kept line are dropped and a run of empty lines
    between kept lines becomes one; every kept line ends with a newline.
    [empties] counts the empty lines seen since the last kept line,
    [started] tells whether a line has been kept. *)
Fixpoint stripspace_lines (empties : nat) (started : bool) (ls : list string) : string :=
  match ls with
  | [] => EmptyString
  | l :: ls' =>
      if match l with String "#" _ => true | _ => false end
      then stripspace_lines empties started ls'
      else
        let l' := rstrip l in
        if String.eqb l' "" then stripspace_lines (S empties) started ls'
        else (if started && (0 <? empties)%nat then String newline EmptyString else EmptyString)
             ++ l' ++ String newline EmptyString ++ stripspace_lines 0 true ls'
  end.

(** The [strip] cleanup [git tag] applies to a message given with [-m]. *)
Definition stripspace (msg : string) : string :=
  stripspace_lines 0 false (split_at newline msg).

(** [git tag -a NAME -m MSG]: fails with status 128 when NAME is not a
    valid tag name or the tag exists; the tag stores the cleaned-up
    message. *)
Definition git_tag (name msg : string) (r : repo) : Z + repo :=
  if negb (tag_name_ok name) then inl 128
  else if existsb (fun '(n, _) => String.eqb n name) (tags r) then inl 128
  else inr (mk_repo (worktree r) (index r) (head r) (tags r ++ [(name, stripspace msg)]) (pushed r)
                    (remote_refuses r)).

(** [git push origin REF]: fails with status 1 when the remote refuses
    the ref. *)
Definition git_push (ref : string) (r : repo) : Z + repo :=
  if existsb (String.eqb ref) (remote_refuses r) then inl 1
  else inr (mk_repo (worktree r) (index r) (head r) (tags r) (pushed r ++ [ref]) (remote_refuses r)).

(* ===================================================================== *)
(** ** Release script: the whole run *)
(* ===================================================================== *)

(** Lines 87-92 under [set -e]: the annotated tag, then the push of main
    and the push of the tag; the first failing command ends the script
    with its status. *)
Definition tag_and_push (tag_name msg : string) (r4 : repo) : Z * repo :=
  match git_tag tag_name msg r4 with
  | inl c => (c, r4)
  | inr r5 =>
  match git_push "main" r5 with
  | inl c => (c, r5)
  | inr r6 =>
  match git_push tag_name r6 with
  | inl c => (c, r6)
  | inr r7 => (0, r7)
  end end end.

Definition valid_part (part : string) : bool :=
  String.eqb part "major" || String.eqb part "minor" || String.eqb part "patch".

(** The script run from the repository root with [set -e]: the exit
    status and the final repository.  An arithmetic error ([None] from
    [new_version]) aborts the script with status 1. *)
Definition release (args : list string) (r : repo) : Z * repo :=
  match args with
  | [] => (1, r)
  | part :: rest =>
      if negb (valid_part part) then (1, r) else
      let tag_message := concat " " rest in
      if negb (git_diff_quiet r) then (1, r) else
      match new_version part (current_version (worktree r)) with
      | None => (1, r)
      | Some nv =>
          match sed_in_place pyproject_path (sed_anchored version_key)
                  ("version = " ++ dq_s ++ nv ++ dq_s) r with
          | inl c => (c, r)
          | inr r1 =>
          match sed_in_place init_path (sed_leftmost init_key)
                  ("__version__ = " ++ dq_s ++ nv ++ dq_s) r1 with
          | inl c => (c, r1)
          | inr r2 =>
          match git_add [pyproject_path; init_path] r2 with
          | inl c => (c, r2)
          | inr r3 =>
          match git_commit r3 with
          | inl c => (c, r3)
          | inr r4 =>
          let tag_name := "v" ++ nv in
          let msg := if String.eqb tag_message "" then "Version " ++ nv else tag_message in
          tag_and_push tag_name msg r4
          end end end end
      end
  end.

(** The version the release script itself would read from a file set. *)
Definition pyproject_version (files : gmap string (list string)) : string :=
  first_line (current_version files).

(** The value of the first [__version__ = "..."] assignment of a file. *)
Fixpoint assign_value (key : string) (l : string) : option string :=
  match strip_prefix key l with
  | Some r =>
      match span_nonquote r with
      | (v, String _ _) => Some v
      | (_, EmptyString) => match l with EmptyString => None | String _ l' => assign_value key l' end
      end
  | None => match l with EmptyString => None | String _ l' => assign_value key l' end
  end.

Definition init_version (files : gmap string (list string)) : option string :=
  match files !! init_path with
  | Some ls => hd_error (omap (assign_value init_key) ls)
  | None => None
  end.

(* ===================================================================== *)
(** ** SDK: error taxonomy and error mapping *)
(* ===================================================================== *)

(** Modelled from the spec: the exception classes of [recallrai.exceptions]
    (the SDK package is not among the sources).  One constructor per leaf
    kind of the README's hierarchy, each with its structured fields, plus
    the generic kind of the 4xx family and the base kind. *)
Inductive recallrai_error :=
  | AuthenticationError
  | TimeoutError
  | ConnectionError
  | InternalServerError (status : Z)
  | RateLimitError (retry_after : option Z)
  | UserNotFoundError
  | UserAlreadyExistsError
  | InvalidCategoriesError (invalid_categories : list string)
  | SessionNotFoundError
  | InvalidSessionStateError
  | MergeConflictNotFoundError
  | MergeConflictAlreadyResolvedError
  | MergeConflictInvalidQuestionsError (invalid_questions : list string)
  | MergeConflictMissingAnswersError (missing_questions : list string)
  | MergeConflictInvalidAnswerError (question : string) (valid_options : list string)
  | ValidationError
  | ClientError (status : Z)
  | RecallrAIError (status : Z).

Inductive error_category :=
  | CatAuthentication | CatNetwork | CatServer | CatUser | CatSession
  | CatMergeConflict | CatValidation | CatClient | CatBase.

(** Modelled from the spec: the first level of the hierarchy (section 7). *)
Definition category_of (e : recallrai_error) : error_category :=
  match e with
  | AuthenticationError => CatAuthentication
  | TimeoutError | ConnectionError => CatNetwork
  | InternalServerError _ | RateLimitError _ => CatServer
  | UserNotFoundError | UserAlreadyExistsError => CatUser
  | SessionNotFoundError | InvalidSessionStateError => CatSession
  | MergeConflictNotFoundError | MergeConflictAlreadyResolvedError
  | MergeConflictInvalidQuestionsError _ | MergeConflictMissingAnswersError _
  | MergeConflictInvalidAnswerError _ _ => CatMergeConflict
  | InvalidCategoriesError _ | ValidationError => CatValidation
  | ClientError _ => CatClient
  | RecallrAIError _ => CatBase
  end.

(** Modelled from the spec: the server-supplied error code of a response
    body, either one the SDK recognises or an unknown one. *)
Inductive error_code :=
  | ECUserNotFound
  | ECUserAlreadyExists
  | ECInvalidCategories (l : list string)
  | ECSessionNotFound
  | ECInvalidSessionState
  | ECMergeConflictNotFound
  | ECMergeConflictAlreadyResolved
  | ECInvalidQuestions (l : list string)
  | ECMissingAnswers (l : list string)
  | ECInvalidAnswer (q : string) (opts : list string)
  | ECValidation.

Inductive code_field := Known (c : error_code) | Unknown (raw : string).

Record response_body := mk_body {
  body_code : option code_field;
  body_retry_after : option Z;
  body_detail : string
}.

Definition kind_of_code (c : error_code) : recallrai_error :=
  match c with
  | ECUserNotFound => UserNotFoundError
  | ECUserAlreadyExists => UserAlreadyExistsError
  | ECInvalidCategories l => InvalidCategoriesError l
  | ECSessionNotFound => SessionNotFoundError
  | ECInvalidSessionState => InvalidSessionStateError
  | ECMergeConflictNotFound => MergeConflictNotFoundError
  | ECMergeConflictAlreadyResolved => MergeConflictAlreadyResolvedError
  | ECInvalidQuestions l => MergeConflictInvalidQuestionsError l
  | ECMissingAnswers l => MergeConflictMissingAnswersError l
  | ECInvalidAnswer q o => MergeConflictInvalidAnswerError q o
  | ECValidation => ValidationError
  end.

(** Modelled from the spec: [map_error(status_code, body)] (section 4.2):
    the status code first (401/403 authentication, 429 rate limit with the
    body's retry-after, 5xx internal server error), then for the other 4xx
    codes the body's error code, falling back to the generic client-error
    kind; any other status gives the base kind. *)
Definition map_error (status : Z) (body : response_body) : recallrai_error :=
  if (status =? 401) || (status =? 403) then AuthenticationError
  else if status =? 429 then RateLimitError (body_retry_after body)
  else if (500 <=? status) && (status <=? 599) then InternalServerError status
  else if (400 <=? status) && (status <=? 499) then
    match body_code body with
    | Some (Known c) => kind_of_code c
    | _ => ClientError status
    end
  else RecallrAIError status.

Inductive http_method := GET | POST | PUT | PATCH | DELETE.

Set Warnings "-register-all".

Inductive json :=
  | JNull
  | JStr (s : string)
  | JNum (z : Z)
  | JList (l : list json)
  | JObj (kv : list (string * json)).

Record request := mk_request {
  req_method : http_method;
  req_path : list string;
  req_query : list (string * string);
  req_body : list (string * json)
}.

(** Modelled from the spec: the resource methods' own status handling
    (section 4.3): a 404 is the NotFound kind of the resource addressed by
    the path [users/{id}[/sessions/{sid} | /merge-conflicts/{cid}]], a 409
    on a user route is the uniqueness conflict of user ids; everything else
    goes to [map_error]. *)
Definition not_found_of (path : list string) : option recallrai_error :=
  match path with
  | ["users"; _] => Some UserNotFoundError
  | "users" :: _ :: "sessions" :: _ :: _ => Some SessionNotFoundError
  | "users" :: _ :: "merge-conflicts" :: _ :: _ => Some MergeConflictNotFoundError
  | _ => None
  end.

Definition is_user_route (path : list string) : bool :=
  match path with
  | ["users"] | ["users"; _] => true
  | _ => false
  end.

Definition sdk_error (rq : request) (status : Z) (body : response_body) : recallrai_error :=
  if status =? 404 then
    match not_found_of (req_path rq) with
    | Some e => e
    | None => map_error status body
    end
  else if (status =? 409) && is_user_route (req_path rq) then UserAlreadyExistsError
  else map_error status body.

Inductive result (A : Type) := Ok (a : A) | Err (e : recallrai_error).
Arguments Ok {A} a.
Arguments Err {A} e.

(** Modelled from the spec: the transport's handling of a response
    (section 4.1): a 2xx payload is returned verbatim, anything else is
    raised through the error mapping. *)
Definition handle_response (rq : request) (status : Z) (body : response_body) (payload : json)
    : result json :=
  if (200 <=? status) && (status <=? 299) then Ok payload
  else Err (sdk_error rq status body).

(* ===================================================================== *)
(** ** SDK: merge conflict resolution *)
(* ===================================================================== *)

Inductive conflict_status := MCPending | MCInQueue | MCResolving | MCResolved | MCFailed.

Record clarifying_question := mk_question {
  cq_question : string;
  cq_options : list string
}.

Record merge_conflict_answer := mk_answer {
  ans_question : string;
  ans_answer : string;
  ans_message : string
}.

Record merge_conflict := mk_conflict {
  conflict_id : string;
  conflict_user_id : string;
  conflict_status_of : conflict_status;
  clarifying_questions : list clarifying_question
}.

Definition mem_string (s : string) (l : list string) : bool :=
  existsb (String.eqb s) l.

(** Modelled from the spec: the client-side checks of
    [MergeConflict.resolve(answers)] (section 4.3): an answer to a question
    the conflict does not ask makes the question sets mismatch
    (InvalidQuestions, with those questions); a question left unanswered is
    MissingAnswers (with those questions); an answer outside its question's
    options is InvalidAnswer (with the question and its options). *)
Definition resolve_check (c : merge_conflict) (answers : list merge_conflict_answer)
    : option recallrai_error :=
  let asked := map cq_question (clarifying_questions c) in
  let given := map ans_question answers in
  match List.filter (fun g => negb (mem_string g asked)) given with
  | (_ :: _) as extra => Some (MergeConflictInvalidQuestionsError extra)
  | [] =>
      match List.filter (fun q => negb (mem_string q given)) asked with
      | (_ :: _) as missing => Some (MergeConflictMissingAnswersError missing)
      | [] =>
          match find (fun a =>
                   match find (fun q => String.eqb (cq_question q) (ans_question a)) (clarifying_questions c) with
                   | Some q => negb (mem_string (ans_answer a) (cq_options q))
                   | None => false
                   end) answers with
          | Some a =>
              let opts := match find (fun q => String.eqb (cq_question q) (ans_question a)) (clarifying_questions c) with
                          | Some q => cq_options q
                          | None => []
                          end in
              Some (MergeConflictInvalidAnswerError (ans_question a) opts)
          | None => None
          end
      end
  end.

Definition answer_json (a : merge_conflict_answer) : json :=
  JObj [("question", JStr (ans_question a)); ("answer", JStr (ans_answer a));
        ("message", JStr (ans_message a))].

Definition resolve_request (c : merge_conflict) (answers : list merge_conflict_answer) : request :=
  mk_request POST ["users"; conflict_user_id c; "merge-conflicts"; conflict_id c; "resolve"] []
             [("answers", JList (map answer_json answers))].

(** Modelled from the spec: [resolve(answers)] as the list of requests it
    issues and its outcome; [server] answers a request with a status, an
    error body and a payload. *)
Definition resolve (server : request -> Z * response_body * json)
    (c : merge_conflict) (answers : list merge_conflict_answer)
    : list request * result unit :=
  match resolve_check c answers with
  | Some e => ([], Err e)
  | None =>
      let rq := resolve_request c answers in
      let '(st, body, payload) := server rq in
      ([rq], match handle_response rq st body payload with
             | Ok _ => Ok tt
             | Err e => Err e
             end)
  end.

(* ===================================================================== *)
(** ** SDK: sessions *)
(* ===================================================================== *)

Inductive session_status := Pending | InQueue | Processing | Processed | Failed.

Definition session_status_eqb (a b : session_status) : bool :=
  match a, b with
  | Pending, Pending | InQueue, InQueue | Processing, Processing
  | Processed, Processed | Failed, Failed => true
  | _, _ => false
  end.

Inductive message_role := RoleUser | RoleAssistant.

Record message := mk_message {
  msg_role : message_role;
  msg_content : string;
  msg_timestamp : Z
}.

Record session := mk_session {
  session_id : string;
  session_user_id : string;
  session_status_of : session_status;
  session_messages : list message
}.

Definition with_status (s : session) (st : session_status) : session :=
  mk_session (session_id s) (session_user_id s) st (session_messages s).

(** Modelled from the spec: [Session.add_message(role, content)] against
    the service's sessions (section 4.3): the session must exist, and
    messages are accepted only while it is pending. *)
Definition add_message (sessions : gmap string session) (sid : string)
    (role : message_role) (content : string) (now : Z)
    : result unit * gmap string session :=
  match sessions !! sid with
  | None => (Err SessionNotFoundError, sessions)
  | Some s =>
      if session_status_eqb (session_status_of s) Pending then
        (Ok tt, <[sid := mk_session (session_id s) (session_user_id s) Pending
                         (session_messages s ++ [mk_message role content now])]> sessions)
      else (Err InvalidSessionStateError, sessions)
  end.

(** Modelled from the spec: [Session.process()] (section 4.3): pending
    moves to in_queue; any other status is rejected and nothing changes. *)
Definition process (sessions : gmap string session) (sid : string)
    : result unit * gmap string session :=
  match sessions !! sid with
  | None => (Err SessionNotFoundError, sessions)
  | Some s =>
      if session_status_eqb (session_status_of s) Pending then
        (Ok tt, <[sid := with_status s InQueue]> sessions)
      else (Err InvalidSessionStateError, sessions)
  end.

(* ===================================================================== *)
(** ** SDK: paginated listings *)
(* ===================================================================== *)

Record paginated (A : Type) := mk_page {
  items : list A;
  total : nat;
  has_more : bool
}.
Arguments mk_page {A} items total has_more.
Arguments items {A} p.
Arguments total {A} p.
Arguments has_more {A} p.

(** Modelled from the spec: a list endpoint over an ordered collection
    (section 6): [offset] items are skipped, at most [limit] are returned,
    a [limit] above the resource's maximum is a validation error; [total]
    is the collection size and [has_more] says whether items remain after
    the page. *)
Definition list_page {A} (max_limit : nat) (coll : list A) (offset limit : nat)
    : result (paginated A) :=
  if Nat.ltb max_limit limit then Err ValidationError
  else Ok (mk_page (take limit (drop offset coll)) (List.length coll)
                   (negb (bool_decide (drop (offset + limit) coll = [])))).

(* ===================================================================== *)
(** ** SDK: user handles and their partial update *)
(* ===================================================================== *)

Record user := mk_user {
  user_id : string;
  user_metadata : gmap string string;
  created_at : Z;
  last_active_at : Z
}.

Definition metadata_json (m : gmap string string) : json :=
  JObj (map (fun kv => (kv.1, JStr kv.2)) (map_to_list m)).

Definition json_str (j : json) : option string :=
  match j with JStr s => Some s | _ => None end.

Definition decode_metadata (j : json) : option (gmap string string) :=
  match j with
  | JObj kvs => Some (list_to_map (omap (fun kv => match json_str kv.2 with
                                                   | Some s => Some (kv.1, s)
                                                   | None => None
                                                   end) kvs))
  | _ => None
  end.

(** Modelled from the spec: the body of [User.update(new_metadata=...,
    new_user_id=...)]: only the arguments the caller provided. *)
Definition update_body (new_user_id : option string) (new_metadata : option (gmap string string))
    : list (string * json) :=
  match new_user_id with Some u => [("new_user_id", JStr u)] | None => [] end ++
  match new_metadata with Some m => [("new_metadata", metadata_json m)] | None => [] end.

Definition body_field (k : string) (body : list (string * json)) : option json :=
  match List.find (fun kv => String.eqb kv.1 k) body with
  | Some kv => Some kv.2
  | None => None
  end.

(** Modelled from the spec: the service's partial update of a user: the
    fields present in the body replace the stored ones, the others are
    kept; a missing user is 404, a new id already taken is 409. *)
Definition server_update_user (users : gmap string user) (uid : string)
    (body : list (string * json)) (now : Z) : Z * option user * gmap string user :=
  match users !! uid with
  | None => (404, None, users)
  | Some u =>
      let uid' := match body_field "new_user_id" body ≫= json_str with Some s => s | None => uid end in
      let md := match body_field "new_metadata" body ≫= decode_metadata with
                | Some m => m | None => user_metadata u end in
      if negb (String.eqb uid' uid) && bool_decide (is_Some (users !! uid')) then (409, None, users)
      else let u' := mk_user uid' md (created_at u) now in
           (200, Some u', <[uid' := u']> (delete uid users))
  end.

Definition empty_body : response_body := mk_body None None "".

(** Modelled from the spec: [User.update] on the handle stored at [l] in
    the heap of Python objects: one PUT request; on success the fields of
    that same object are overwritten with the returned user and [None] is
    returned; on failure the error is raised and the object is untouched.
    The result also lists the requests sent; [None] when [l] holds no
    object. *)
Definition update (heap : gmap positive user) (l : positive)
    (new_user_id : option string) (new_metadata : option (gmap string string))
    (users : gmap string user) (now : Z)
    : option (result unit * gmap positive user * gmap string user * list request) :=
  match heap !! l with
  | None => None
  | Some u =>
      let rq := mk_request PUT ["users"; user_id u] [] (update_body new_user_id new_metadata) in
      let '(st, resp, users') := server_update_user users (user_id u) (req_body rq) now in
      Some (match resp with
            | Some u' => if (200 <=? st) && (st <=? 299) then (Ok tt, <[l := u']> heap, users', [rq])
                         else (Err (sdk_error rq st empty_body), heap, users', [rq])
            | None => (Err (sdk_error rq st empty_body), heap, users', [rq])
            end)
  end.

(* ===================================================================== *)
(** ** SDK: session handles and their partial update *)
(* ===================================================================== *)

(** Modelled from the spec: the fields of a session handle (section 2):
    its id, the user it belongs to, its status and its metadata. *)
Record session_handle := mk_session_handle {
  sh_session_id : string;
  sh_user_id : string;
  sh_status : session_status;
  sh_metadata : gmap string string
}.

(** Modelled from the spec: the body of [Session.update(new_metadata=...)]:
    only the argument the caller provided. *)
Definition session_update_body (new_metadata : option (gmap string string)) : list (string * json) :=
  match new_metadata with Some m => [("new_metadata", metadata_json m)] | None => [] end.

(** Modelled from the spec: the service's partial update of a session of a
    user: a field present in the body replaces the stored one, the others
    are kept; a session that does not exist (or belongs to another user)
    is 404. *)
Definition server_update_session (sessions : gmap string session_handle) (uid sid : string)
    (body : list (string * json)) : Z * option session_handle * gmap string session_handle :=
  match sessions !! sid with
  | Some s =>
      if String.eqb (sh_user_id s) uid then
        let md := match body_field "new_metadata" body ≫= decode_metadata with
                  | Some m => m | None => sh_metadata s end in
        let s' := mk_session_handle sid uid (sh_status s) md in
        (200, Some s', <[sid := s']> sessions)
      else (404, None, sessions)
  | None => (404, None, sessions)
  end.

(** Modelled from the spec: [Session.update] on the handle stored at [l] in
    the heap of Python objects: one PUT request on the session's route; on
    success the fields of that same object are overwritten with the
    returned session and [None] is returned; on failure the error is
    raised and the object is untouched.  The result also lists the
    requests sent; [None] when [l] holds no object. *)
Definition session_update (heap : gmap positive session_handle) (l : positive)
    (new_metadata : option (gmap string string)) (sessions : gmap string session_handle)
    : option (result unit * gmap positive session_handle * gmap string session_handle * list request) :=
  match heap !! l with
  | None => None
  | Some s =>
      let rq := mk_request PUT ["users"; sh_user_id s; "sessions"; sh_session_id s] []
                           (session_update_body new_metadata) in
      let '(st, resp, sessions') := server_update_session sessions (sh_user_id s) (sh_session_id s) (req_body rq) in
      Some (match resp with
            | Some s' => if (200 <=? st) && (st <=? 299) then (Ok tt, <[l := s']> heap, sessions', [rq])
                         else (Err (sdk_error rq st empty_body), heap, sessions', [rq])
            | None => (Err (sdk_error rq st empty_body), heap, sessions', [rq])
            end)
  end.

(* ===================================================================== *)
(** ** SDK: versioned memories *)
(* ===================================================================== *)

Record memory_version := mk_version {
  version_number : nat;
  v_content : string;
  v_created_at : Z;
  v_session_id : string;
  v_expiry : option (Z * string)
}.

Record memory_entry := mk_entry {
  memory_id : string;
  categories : list string;
  history : list memory_version;
  connected : list string;
  conflict_in_progress : bool
}.

(** Modelled from the spec: the service's memory operations (section 3):
    a memory starts at version 1; an edit expires the current version with
    a reason and appends the next one. *)
Inductive memory_op :=
  | CreateMemory (id : string) (cats : list string) (content : string) (now : Z) (sid : string)
  | EditMemory (id : string) (content : string) (now : Z) (sid : string) (reason : string).

Definition expire (now : Z) (reason : string) (v : memory_version) : memory_version :=
  match v_expiry v with
  | Some _ => v
  | None => mk_version (version_number v) (v_content v) (v_created_at v) (v_session_id v) (Some (now, reason))
  end.

Definition apply_memory_op (store : gmap string memory_entry) (op : memory_op) : gmap string memory_entry :=
  match op with
  | CreateMemory id cats content now sid =>
      match store !! id with
      | Some _ => store
      | None => <[id := mk_entry id cats [mk_version 1 content now sid None] [] false]> store
      end
  | EditMemory id content now sid reason =>
      match store !! id with
      | None => store
      | Some e =>
          <[id := mk_entry id (categories e)
                    (map (expire now reason) (history e)
                       ++ [mk_version (S (List.length (history e))) content now sid None])
                    (connected e) (conflict_in_progress e)]> store
      end
  end.

Definition run_memory_ops (ops : list memory_op) : gmap string memory_entry :=
  foldl apply_memory_op ∅ ops.

Record memory_version_info := mk_version_info {
  info_version_number : nat;
  info_content : string;
  info_created_at : Z;
  info_expired_at : option Z;
  info_expiration_reason : option string
}.

(** Modelled from the spec: the Memory item of a listing (README, Memory
    Item Fields): the latest version's data, the version counters, and the
    earlier versions (oldest first) when they are requested. *)
Record Memory := mk_Memory {
  m_memory_id : string;
  m_categories : list string;
  m_content : string;
  m_created_at : Z;
  m_session_id : string;
  m_version_number : nat;
  m_total_versions : nat;
  m_has_previous_versions : bool;
  m_previous_versions : option (list memory_version_info);
  m_connected_memories : option (list string);
  m_merge_conflict_in_progress : bool
}.

Definition version_info (v : memory_version) : memory_version_info :=
  mk_version_info (version_number v) (v_content v) (v_created_at v)
                  (option_map fst (v_expiry v)) (option_map snd (v_expiry v)).

Definition memory_view (e : memory_entry) (include_previous : bool) : option Memory :=
  match last (history e) with
  | None => None
  | Some cur =>
      let older := removelast (history e) in
      Some (mk_Memory (memory_id e) (categories e) (v_content cur) (v_created_at cur)
                      (v_session_id cur) (version_number cur) (List.length (history e))
                      (negb (bool_decide (older = [])))
                      (if include_previous then Some (map version_info older) else None)
                      (Some (connected e)) (conflict_in_progress e))
  end.

(* ===================================================================== *)
(** ** Statements used by the theorems *)
(* ===================================================================== *)

(** The question strings of the answers and of the conflict are the same
    set. *)
Definition same_question_set (c : merge_conflict) (answers : list merge_conflict_answer) : bool :=
  let asked := map cq_question (clarifying_questions c) in
  let given := map ans_question answers in
  forallb (fun g => mem_string g asked) given && forallb (fun q => mem_string q given) asked.

Definition is_invalid_questions (r : result unit) : bool :=
  match r with Err (MergeConflictInvalidQuestionsError _) => true | _ => false end.

Definition is_missing_answers (r : result unit) : bool :=
  match r with Err (MergeConflictMissingAnswersError _) => true | _ => false end.

Definition users_example : gmap string user :=
  <["user123" := mk_user "user123" ∅ 0 3]> ∅.

Definition heap_example : gmap positive user :=
  <[1%positive := mk_user "user123" ∅ 0 3]> ∅.

Definition session_store_example : gmap string session_handle :=
  <["s1" := mk_session_handle "s1" "user123" Pending ∅]> ∅.

Definition session_heap_example : gmap positive session_handle :=
  <[1%positive := mk_session_handle "s1" "user123" Pending ∅]> ∅.

(** The versions of a stored memory are numbered 1, 2, ..., n, oldest
    first, and there is at least one. *)
Definition versions_sequential (e : memory_entry) : Prop :=
  map version_number (history e) = seq 1 (List.length (history e)) /\ history e <> [].

(** Every character of a string satisfies [p]. *)
Fixpoint all_chars (p : ascii -> bool) (s : string) : bool :=
  match s with
  | EmptyString => true
  | String c s' => p c && all_chars p s'
  end.

(** The characters a version string of digits and dots is made of. *)
Definition version_char (c : ascii) : bool := is_digit c || Ascii.eqb c ".".

(** Characters that stand for themselves in the right-hand side of an [s]
    command. *)
Definition plain_char (c : ascii) : bool :=
  negb (Ascii.eqb c "/" || Ascii.eqb c "092" || Ascii.eqb c "&").

(** The value of a decimal digit string (most significant digit first),
    accumulated from [acc]. *)
Fixpoint uval (acc : Z) (d : Decimal.uint) : Z :=
  match d with
  | Decimal.Nil => acc
  | Decimal.D0 d => uval (acc * 10 + 0) d
  | Decimal.D1 d => uval (acc * 10 + 1) d
  | Decimal.D2 d => uval (acc * 10 + 2) d
  | Decimal.D3 d => uval (acc * 10 + 3) d
  | Decimal.D4 d => uval (acc * 10 + 4) d
  | Decimal.D5 d => uval (acc * 10 + 5) d
  | Decimal.D6 d => uval (acc * 10 + 6) d
  | Decimal.D7 d => uval (acc * 10 + 7) d
  | Decimal.D8 d => uval (acc * 10 + 8) d
  | Decimal.D9 d => uval (acc * 10 + 9) d
  end.

(** M.m.P with the three numbers written in decimal. *)
Definition dec_version (M m P : N) : string := N_dec M ++ "." ++ N_dec m ++ "." ++ N_dec P.

(** The version the release is meant to produce from M.m.P, following the
    wording of the specification: (M+1).0.0, M.(m+1).0 or M.m.(P+1), with
    the numbers written in decimal. *)
Definition spec_bumped_version (part : string) (M m P : N) : string :=
  if String.eqb part "major" then N_dec (M + 1) ++ ".0.0"
  else if String.eqb part "minor" then N_dec M ++ "." ++ N_dec (m + 1) ++ ".0"
  else N_dec M ++ "." ++ N_dec m ++ "." ++ N_dec (P + 1).

(** A small checkout of the repository at version [v]. *)
Definition files_example (v : string) : gmap string (list string) :=
  <[pyproject_path := ["[project]"; "name = " ++ dq_s ++ "recallrai" ++ dq_s;
                       version_key ++ v ++ dq_s; "requires-python = " ++ dq_s ++ ">=3.8" ++ dq_s]]>
  (<[init_path := ["from .client import RecallrAI"; init_key ++ v ++ dq_s]]>
  (<["README.md" := ["# RecallrAI Python SDK"]]> ∅)).

(** Everything committed: worktree, index and HEAD agree. *)
Definition clean_repo (v : string) : repo :=
  mk_repo (files_example v) (files_example v) (files_example v) [] [] [].

(** An edit of the README that was staged ([git add]) but not committed. *)
Definition staged_repo : repo :=
  let w := <["README.md" := ["# RecallrAI Python SDK"; "draft notes"]]> (files_example "0.2.0") in
  mk_repo w w (files_example "0.2.0") [] [] [].


(** The numbers M.m.P become under a bump of the given part. *)
Definition bump_triple (part : string) (M m P : N) : N * N * N :=
  if String.eqb part "major" then ((M + 1)%N, 0%N, 0%N)
  else if String.eqb part "minor" then (M, (m + 1)%N, 0%N)
  else (M, m, (P + 1)%N).

(** A checkout at 0.2.0 on which the tag v0.2.1 already exists. *)
Definition tagged_repo : repo :=
  mk_repo (files_example "0.2.0") (files_example "0.2.0") (files_example "0.2.0")
          [("v0.2.1", "Version 0.2.1")] [] [].


(** A pyproject.toml without a [version = "..."] line. *)
Definition files_no_version : gmap string (list string) :=
  <[pyproject_path := ["[tool.poetry]"; "name = " ++ dq_s ++ "recallrai" ++ dq_s]]> ∅.


(* ===================================================================== *)
(** * Theorems *)
(* ===================================================================== *)

(** Case analysis on the integer comparisons of a goal, closing the
    branches the context rules out. *)
Ltac z_cases :=
  repeat match goal with
         | |- context [?a =? ?b] => destruct (Z.eqb_spec a b); try lia
         | |- context [?a <=? ?b] => destruct (Z.leb_spec a b); try lia
         end; simpl; try reflexivity.

Lemma mem_string_In (s : string) (l : list string) : mem_string s l = true <-> In s l.
Proof.
  unfold mem_string. rewrite existsb_exists. split.
  - intros [x [Hx Hs]]. apply String.eqb_eq in Hs. subst. exact Hx.
  - intros H. exists s. split; [exact H | apply String.eqb_refl].
Qed.

Lemma filter_nil_forall {A} (f : A -> bool) (l : list A) :
  List.filter f l = [] <-> (forall x, In x l -> f x = false).
Proof.
  induction l as [|a l IH]; simpl; [tauto|].
  destruct (f a) eqn:Ha.
  - split; [discriminate|]. intros H. rewrite (H a (or_introl eq_refl)) in Ha. discriminate.
  - rewrite IH. split.
    + intros H x [<-|Hx]; auto.
    + intros H x Hx. apply H. auto.
Qed.

Lemma forallb_false_exists {A} (f : A -> bool) (l : list A) :
  forallb f l = false -> exists x, In x l /\ f x = false.
Proof.
  induction l as [|a l IH]; simpl; [discriminate|].
  destruct (f a) eqn:Ha; simpl.
  - intros H. destruct (IH H) as [x [Hx Hf]]. exists x. auto.
  - intros _. exists a. auto.
Qed.

(** C1: the error mapper turns a 429 whose body carries [retry_after = 30]
    into RateLimitError with [retry_after = 30], any 404 on
    [GET /users/{id}] into UserNotFoundError and any 409 on user creation
    ([POST /users]) into UserAlreadyExistsError. *)
Theorem error_mapping_examples :
  (forall rq body payload, body_retry_after body = Some 30 ->
     handle_response rq 429 body payload = Err (RateLimitError (Some 30))) /\
  (forall id q body payload,
     handle_response (mk_request GET ["users"; id] q []) 404 body payload = Err UserNotFoundError) /\
  (forall q b body payload,
     handle_response (mk_request POST ["users"] q b) 409 body payload = Err UserAlreadyExistsError).
Proof.
  split; [|split].
  - intros rq body payload H. unfold handle_response, sdk_error, map_error. cbn.
    rewrite H. reflexivity.
  - intros. reflexivity.
  - intros. reflexivity.
Qed.

Lemma error_mapping_examples_witness :
  body_retry_after (mk_body None (Some 30) "rate limited") = Some 30 /\
  handle_response (mk_request POST ["users"; "u1"; "sessions"] [] []) 429
    (mk_body None (Some 30) "rate limited") JNull = Err (RateLimitError (Some 30)).
Proof.
  split; [reflexivity|].
  apply (proj1 error_mapping_examples). reflexivity.
Defined.

(** C2 (as stated, refuted): a 4xx body without a recognizable error code
    does not always give the generic client-error kind: a 429 gives
    RateLimitError, a server-category kind. *)
Lemma map_error_4xx_fallback_counterexample :
  400 <= 429 <= 499 /\ body_code empty_body = None /\
  map_error 429 empty_body = RateLimitError (body_retry_after empty_body) /\
  category_of (map_error 429 empty_body) <> CatClient.
Proof.
  split; [lia|]. split; [reflexivity|]. split; [reflexivity|].
  cbn. discriminate.
Qed.

(** C2 (amended): every non-2xx response is raised as exactly the mapped
    exception, never passed through; for a body without a recognizable
    error code, 401/403 give AuthenticationError, 429 gives RateLimitError,
    every other 4xx the generic client-error kind and every 5xx
    InternalServerError. *)
Theorem map_error_total :
  (forall rq status body payload, ~ (200 <= status <= 299) ->
     handle_response rq status body payload = Err (sdk_error rq status body)) /\
  (forall status body,
     (body_code body = None \/ exists raw, body_code body = Some (Unknown raw)) ->
     ((status = 401 \/ status = 403) -> map_error status body = AuthenticationError) /\
     (status = 429 -> map_error status body = RateLimitError (body_retry_after body)) /\
     (400 <= status <= 499 -> status <> 401 -> status <> 403 -> status <> 429 ->
        map_error status body = ClientError status /\ category_of (map_error status body) = CatClient) /\
     (500 <= status <= 599 ->
        map_error status body = InternalServerError status /\ category_of (map_error status body) = CatServer)).
Proof.
  split.
  - intros rq status body payload H. unfold handle_response.
    destruct ((200 <=? status) && (status <=? 299)) eqn:E; [|reflexivity].
    apply andb_true_iff in E as [E1 E2]. apply Z.leb_le in E1, E2. lia.
  - intros status body Hcode.
    assert (Hfb : match body_code body with Some (Known c) => kind_of_code c | _ => ClientError status end
                  = ClientError status)
      by (destruct Hcode as [-> | [raw ->]]; reflexivity).
    unfold map_error. split; [|split; [|split]].
    + intros Hs. z_cases.
    + intros Hs. z_cases.
    + intros Hr H1 H2 H3. z_cases. rewrite Hfb. split; reflexivity.
    + intros Hr. z_cases. split; reflexivity.
Qed.

Lemma map_error_total_witness :
  ~ (200 <= 503 <= 299) /\
  handle_response (mk_request GET ["users"; "u1"] [] []) 503 empty_body JNull
    = Err (sdk_error (mk_request GET ["users"; "u1"] [] []) 503 empty_body) /\
  map_error 418 empty_body = ClientError 418 /\ category_of (map_error 418 empty_body) = CatClient.
Proof.
  split; [lia|]. split.
  - apply (proj1 map_error_total). lia.
  - apply (proj2 map_error_total 418 empty_body (or_introl eq_refl)); lia.
Defined.

Definition conflict_example : merge_conflict :=
  mk_conflict "c1" "u1" MCPending [mk_question "q1" ["yes"; "no"]; mk_question "q2" ["a"; "b"]].

Definition answers_example : list merge_conflict_answer := [mk_answer "q1" "yes" ""].

Definition accept_all (rq : request) : Z * response_body * json := (200, empty_body, JNull).

(** The two halves of the claim about [resolve] cannot both hold for any
    function: an answer list that leaves a question unanswered also has a
    question set different from the conflict's. *)
Lemma resolve_claims_inconsistent (f : merge_conflict -> list merge_conflict_answer -> result unit) :
  ~ ((forall c answers, same_question_set c answers = false -> is_invalid_questions (f c answers) = true) /\
     (forall c answers,
        (exists q, In q (map cq_question (clarifying_questions c)) /\ ~ In q (map ans_question answers)) ->
        is_missing_answers (f c answers) = true)).
Proof.
  intros [H1 H2].
  specialize (H1 conflict_example answers_example eq_refl).
  assert (Hq : exists q, In q (map cq_question (clarifying_questions conflict_example))
                    /\ ~ In q (map ans_question answers_example)).
  { exists "q2". split; [simpl; tauto|]. simpl. intros [H|H]; [discriminate|exact H]. }
  specialize (H2 conflict_example answers_example Hq).
  destruct (f conflict_example answers_example) as [|e]; [discriminate|].
  destruct e; discriminate.
Qed.

(** C3 (as stated, refuted): an answer list whose question set differs
    from the conflict's does not always fail with InvalidQuestions: leaving
    [q2] unanswered fails with MissingAnswers. *)
Lemma resolve_question_set_counterexample :
  same_question_set conflict_example answers_example = false /\
  is_invalid_questions (snd (resolve accept_all conflict_example answers_example)) = false /\
  is_missing_answers (snd (resolve accept_all conflict_example answers_example)) = true.
Proof. vm_compute. repeat split. Qed.

(** C3 (amended): [resolve] fails before issuing any request (a) with
    InvalidQuestions, naming them, when an answer names a question the
    conflict does not ask; otherwise (b) with MissingAnswers, naming them,
    when a question is left unanswered; otherwise (c) with InvalidAnswer,
    giving the question and its options, when an answer is not among its
    question's options.  So (d) an answer list whose question set differs
    from the conflict's fails before any request with InvalidQuestions or
    MissingAnswers. *)
Theorem resolve_client_checks server c answers :
  ((exists g, In g (map ans_question answers) /\ ~ In g (map cq_question (clarifying_questions c))) ->
   exists extra, extra <> [] /\
     (forall g, In g extra -> ~ In g (map cq_question (clarifying_questions c))) /\
     resolve server c answers = ([], Err (MergeConflictInvalidQuestionsError extra))) /\
  ((forall g, In g (map ans_question answers) -> In g (map cq_question (clarifying_questions c))) ->
   (exists q, In q (map cq_question (clarifying_questions c)) /\ ~ In q (map ans_question answers)) ->
   exists missing, missing <> [] /\
     (forall q, In q missing -> ~ In q (map ans_question answers)) /\
     resolve server c answers = ([], Err (MergeConflictMissingAnswersError missing))) /\
  ((forall g, In g (map ans_question answers) -> In g (map cq_question (clarifying_questions c))) ->
   (forall q, In q (map cq_question (clarifying_questions c)) -> In q (map ans_question answers)) ->
   forall a q, In a answers ->
     find (fun q => String.eqb (cq_question q) (ans_question a)) (clarifying_questions c) = Some q ->
     ~ In (ans_answer a) (cq_options q) ->
   exists a' q', ~ In (ans_answer a') (cq_options q') /\
     resolve server c answers = ([], Err (MergeConflictInvalidAnswerError (ans_question a') (cq_options q')))) /\
  (same_question_set c answers = false ->
   fst (resolve server c answers) = [] /\
   (is_invalid_questions (snd (resolve server c answers))
    || is_missing_answers (snd (resolve server c answers))) = true).
Proof.
  set (asked := map cq_question (clarifying_questions c)).
  set (given := map ans_question answers).
  assert (Ha : (exists g, In g given /\ ~ In g asked) ->
     exists extra, extra <> [] /\ (forall g, In g extra -> ~ In g asked) /\
       resolve server c answers = ([], Err (MergeConflictInvalidQuestionsError extra))).
  { intros [g [Hg Hng]]. unfold resolve, resolve_check. fold asked given.
    destruct (List.filter (fun g => negb (mem_string g asked)) given) as [|x l] eqn:E.
    - exfalso. apply filter_nil_forall with (x := g) in E; [|exact Hg].
      apply negb_false_iff, mem_string_In in E. contradiction.
    - exists (x :: l). split; [discriminate|]. split; [|reflexivity].
      intros y Hy. rewrite <- E in Hy. apply filter_In in Hy as [_ Hy].
      apply negb_true_iff in Hy. intros Hin. apply mem_string_In in Hin. congruence. }
  assert (Hnone : (forall g, In g given -> In g asked) ->
                  List.filter (fun g => negb (mem_string g asked)) given = []).
  { intros Hall. apply filter_nil_forall. intros x Hx.
    apply negb_false_iff, mem_string_In, Hall, Hx. }
  assert (Hb : (forall g, In g given -> In g asked) ->
     (exists q, In q asked /\ ~ In q given) ->
     exists missing, missing <> [] /\ (forall q, In q missing -> ~ In q given) /\
       resolve server c answers = ([], Err (MergeConflictMissingAnswersError missing))).
  { intros Hall [q [Hq Hnq]]. unfold resolve, resolve_check. fold asked given.
    rewrite (Hnone Hall).
    destruct (List.filter (fun q => negb (mem_string q given)) asked) as [|x l] eqn:E.
    - exfalso. apply filter_nil_forall with (x := q) in E; [|exact Hq].
      apply negb_false_iff, mem_string_In in E. contradiction.
    - exists (x :: l). split; [discriminate|]. split; [|reflexivity].
      intros y Hy. rewrite <- E in Hy. apply filter_In in Hy as [_ Hy].
      apply negb_true_iff in Hy. intros Hin. apply mem_string_In in Hin. congruence. }
  split; [exact Ha|]. split; [exact Hb|]. split.
  - intros Hall Hall' a q Ha' Hfq Hopt.
    unfold resolve, resolve_check. fold asked given. rewrite (Hnone Hall).
    replace (List.filter (fun q => negb (mem_string q given)) asked) with (@nil string)
      by (symmetry; apply filter_nil_forall; intros x Hx;
          apply negb_false_iff, mem_string_In, Hall', Hx).
    set (bad := fun a0 : merge_conflict_answer =>
                  match find (fun q0 => String.eqb (cq_question q0) (ans_question a0)) (clarifying_questions c) with
                  | Some q0 => negb (mem_string (ans_answer a0) (cq_options q0))
                  | None => false
                  end).
    destruct (find bad answers) as [a'|] eqn:Ef.
    + apply find_some in Ef as [_ Hbad]. unfold bad in Hbad.
      destruct (find (fun q0 => String.eqb (cq_question q0) (ans_question a')) (clarifying_questions c))
        as [q'|] eqn:Eq'; [|discriminate].
      exists a', q'. split.
      * apply negb_true_iff in Hbad. intros Hin. apply mem_string_In in Hin. congruence.
      * reflexivity.
    + exfalso. apply (find_none _ _ Ef) in Ha'. unfold bad in Ha'. rewrite Hfq in Ha'.
      apply negb_false_iff, mem_string_In in Ha'. contradiction.
  - intros Hs. unfold same_question_set in Hs. fold asked given in Hs.
    apply andb_false_iff in Hs.
    destruct (forallb (fun g => mem_string g asked) given) eqn:Eg.
    + assert (Hall : forall g, In g given -> In g asked).
      { intros g Hg. apply mem_string_In. exact (proj1 (forallb_forall _ _) Eg g Hg). }
      destruct Hs as [Hs|Hs]; [discriminate|].
      apply forallb_false_exists in Hs as [x [Hx Hf]].
      assert (Hex' : exists q, In q asked /\ ~ In q given).
      { exists x. split; [exact Hx|]. intros Hin. apply mem_string_In in Hin. congruence. }
      destruct (Hb Hall Hex') as [missing [_ [_ ->]]]. split; reflexivity.
    + apply forallb_false_exists in Eg as [x [Hx Hf]].
      assert (Hex : exists g, In g given /\ ~ In g asked).
      { exists x. split; [exact Hx|]. intros Hin. apply mem_string_In in Hin. congruence. }
      destruct (Ha Hex) as [extra [_ [_ ->]]]. split; reflexivity.
Qed.

Lemma resolve_client_checks_witness :
  same_question_set conflict_example answers_example = false /\
  fst (resolve accept_all conflict_example answers_example) = [] /\
  (is_invalid_questions (snd (resolve accept_all conflict_example answers_example))
   || is_missing_answers (snd (resolve accept_all conflict_example answers_example))) = true.
Proof.
  split; [reflexivity|].
  apply (proj2 (proj2 (proj2 (resolve_client_checks accept_all conflict_example answers_example)))).
  reflexivity.
Defined.

(** C4: for a session whose status is processed or failed, [add_message]
    fails with InvalidSessionStateError and changes nothing; for a pending
    session it succeeds and appends the message. *)
Theorem add_message_by_status (sessions : gmap string session) sid s role content now :
  sessions !! sid = Some s ->
  ((session_status_of s = Processed \/ session_status_of s = Failed) ->
     add_message sessions sid role content now = (Err InvalidSessionStateError, sessions)) /\
  (session_status_of s = Pending ->
     add_message sessions sid role content now
     = (Ok tt, <[sid := mk_session (session_id s) (session_user_id s) Pending
                         (session_messages s ++ [mk_message role content now])]> sessions)).
Proof.
  intros Hs. unfold add_message. rewrite Hs. split.
  - intros [-> | ->]; reflexivity.
  - intros ->. reflexivity.
Qed.

Definition sessions_example : gmap string session :=
  <["s1" := mk_session "s1" "u1" Processed []]> (<["s2" := mk_session "s2" "u1" Pending []]> ∅).

Lemma add_message_by_status_witness :
  sessions_example !! "s1" = Some (mk_session "s1" "u1" Processed []) /\
  add_message sessions_example "s1" RoleUser "hi" 7 = (Err InvalidSessionStateError, sessions_example).
Proof.
  split; [reflexivity|].
  apply (proj1 (add_message_by_status sessions_example "s1" (mk_session "s1" "u1" Processed []) RoleUser "hi" 7 eq_refl)).
  left. reflexivity.
Defined.

(** C5: [process] on a pending session moves it to in_queue; on a session
    that is in_queue, processing, processed or failed it fails with
    InvalidSessionStateError and performs no transition. *)
Theorem process_transitions (sessions : gmap string session) sid s :
  sessions !! sid = Some s ->
  (session_status_of s = Pending ->
     process sessions sid = (Ok tt, <[sid := with_status s InQueue]> sessions) /\
     session_status_of (with_status s InQueue) = InQueue) /\
  (session_status_of s <> Pending ->
     process sessions sid = (Err InvalidSessionStateError, sessions)).
Proof.
  intros Hs. unfold process. rewrite Hs. split.
  - intros ->. split; reflexivity.
  - intros Hn. destruct (session_status_of s); [contradiction | reflexivity ..].
Qed.

Lemma process_transitions_witness :
  sessions_example !! "s2" = Some (mk_session "s2" "u1" Pending []) /\
  process sessions_example "s2"
  = (Ok tt, <["s2" := mk_session "s2" "u1" InQueue []]> sessions_example).
Proof.
  split; [reflexivity|].
  apply (proj1 (process_transitions sessions_example "s2" (mk_session "s2" "u1" Pending []) eq_refl)).
  reflexivity.
Defined.

(** C6: over an unmodified collection, the pages [(offset=0, limit=N)] and
    [(offset=N, limit=N)] are consecutive slices of it, so for a collection
    of distinct items they share no item; and in every returned page
    [has_more] is false exactly when [offset + len(items) >= total]. *)
Theorem list_page_contract {A} (max_limit : nat) (coll : list A) :
  (forall N p1 p2,
     list_page max_limit coll 0 N = Ok p1 ->
     list_page max_limit coll N N = Ok p2 ->
     (items p1 ++ items p2)%list = take (N + N) coll /\
     (NoDup coll -> forall x, In x (items p1) -> ~ In x (items p2))) /\
  (forall offset limit p,
     list_page max_limit coll offset limit = Ok p ->
     (has_more p = false <-> (total p <= offset + List.length (items p))%nat)).
Proof.
  unfold list_page. split.
  - intros N p1 p2 H1 H2.
    destruct (Nat.ltb max_limit N); [discriminate|].
    injection H1 as <-. injection H2 as <-. simpl.
    split; [apply take_take_drop|].
    intros Hnd x Hx1 Hx2.
    rewrite <- (take_drop N coll) in Hnd.
    apply NoDup_app in Hnd as [_ [Hdisj _]].
    apply (Hdisj x).
    + apply list_elem_of_In. exact Hx1.
    + apply (subseteq_take N). apply list_elem_of_In. exact Hx2.
  - intros offset limit p H.
    destruct (Nat.ltb max_limit limit); [discriminate|].
    injection H as <-. simpl.
    rewrite length_take, length_drop, negb_false_iff, bool_decide_eq_true.
    rewrite <- length_zero_iff_nil, length_drop. lia.
Qed.

Lemma list_page_contract_witness :
  NoDup [1; 2; 3; 4; 5] /\
  (forall x, In x [1; 2] -> ~ In x [3; 4]) /\
  (has_more (mk_page [4; 5] 5%nat false) = false <-> (5 <= 3 + 2)%nat).
Proof.
  assert (Hnd : NoDup [1; 2; 3; 4; 5]) by (apply (bool_decide_unpack _); vm_compute; exact I).
  split; [exact Hnd|]. split.
  - apply (proj2 (proj1 (list_page_contract 200 [1; 2; 3; 4; 5]) 2%nat
                    (mk_page [1; 2] 5%nat true) (mk_page [3; 4] 5%nat true) eq_refl eq_refl)).
    exact Hnd.
  - apply (proj2 (list_page_contract 200 [1; 2; 3; 4; 5]) 3%nat 2%nat). reflexivity.
Defined.

Lemma decode_metadata_json (m : gmap string string) :
  decode_metadata (metadata_json m) = Some m.
Proof.
  unfold decode_metadata, metadata_json. f_equal.
  rewrite <- (list_to_map_to_list m) at 2. f_equal.
  induction (map_to_list m) as [|[k v] l IH]; [reflexivity|].
  cbn. f_equal. exact IH.
Qed.

Lemma update_body_user_id nid nm :
  body_field "new_user_id" (update_body nid nm) ≫= json_str = nid.
Proof. destruct nid, nm; reflexivity. Qed.

Lemma update_body_metadata nid nm :
  body_field "new_metadata" (update_body nid nm) ≫= decode_metadata = nm.
Proof.
  destruct nid, nm; simpl; try reflexivity; apply decode_metadata_json.
Qed.

Lemma session_update_body_metadata nm :
  body_field "new_metadata" (session_update_body nm) ≫= decode_metadata = nm.
Proof. destruct nm; simpl; [apply decode_metadata_json | reflexivity]. Qed.

(** C7: both resource handles with an [update] method, [User] and
    [Session], send one PUT request whose body holds exactly the fields
    the caller provided; on success the call returns [None] (the unit
    result) and overwrites the fields of the existing object in place: the
    heap changes only at that object, which now holds the new values or the
    server's current value for an omitted field, so every reference to the
    object observes the update; on failure the object is untouched. *)
Theorem update_in_place :
  (forall (heap : gmap positive user) l u
      (new_user_id : option string) (new_metadata : option (gmap string string))
      (users : gmap string user) now,
    heap !! l = Some u ->
    exists res heap' users' rq,
      update heap l new_user_id new_metadata users now = Some (res, heap', users', [rq]) /\
      req_method rq = PUT /\
      map fst (req_body rq)
        = ((match new_user_id with Some _ => ["new_user_id"] | None => [] end) ++
           (match new_metadata with Some _ => ["new_metadata"] | None => [] end))%list /\
      (res = Ok tt ->
         exists su u', users !! user_id u = Some su /\
           heap' = <[l := u']> heap /\
           user_id u' = default (user_id u) new_user_id /\
           user_metadata u' = default (user_metadata su) new_metadata /\
           created_at u' = created_at su /\
           (forall (env : string -> positive) x, env x = l -> heap' !! env x = Some u')) /\
      (res <> Ok tt -> heap' = heap)) /\
  (forall (heap : gmap positive session_handle) l s
      (new_metadata : option (gmap string string)) (sessions : gmap string session_handle),
    heap !! l = Some s ->
    exists res heap' sessions' rq,
      session_update heap l new_metadata sessions = Some (res, heap', sessions', [rq]) /\
      req_method rq = PUT /\
      map fst (req_body rq) = match new_metadata with Some _ => ["new_metadata"] | None => [] end /\
      (res = Ok tt ->
         exists ss s', sessions !! sh_session_id s = Some ss /\
           heap' = <[l := s']> heap /\
           sh_session_id s' = sh_session_id s /\
           sh_user_id s' = sh_user_id s /\
           sh_metadata s' = default (sh_metadata ss) new_metadata /\
           sh_status s' = sh_status ss /\
           (forall (env : string -> positive) x, env x = l -> heap' !! env x = Some s')) /\
      (res <> Ok tt -> heap' = heap)).
Proof.
  split.
  - intros heap l u new_user_id new_metadata users now Hl. unfold update. rewrite Hl.
    set (rq := mk_request PUT ["users"; user_id u] [] (update_body new_user_id new_metadata)).
    assert (Hkeys : map fst (req_body rq)
        = ((match new_user_id with Some _ => ["new_user_id"] | None => [] end) ++
           (match new_metadata with Some _ => ["new_metadata"] | None => [] end))%list)
      by (destruct new_user_id, new_metadata; reflexivity).
    unfold server_update_user. cbn [req_body rq].
    rewrite update_body_user_id, update_body_metadata.
    destruct (users !! user_id u) as [su|] eqn:Hsu.
    + set (uid' := match new_user_id with Some s => s | None => user_id u end).
      destruct (negb (String.eqb uid' (user_id u)) && bool_decide (is_Some (users !! uid'))).
      * eexists _, _, _, rq. split; [reflexivity|]. split; [reflexivity|]. split; [exact Hkeys|].
        split; [discriminate | reflexivity].
      * eexists _, _, _, rq. cbn. split; [reflexivity|]. split; [reflexivity|]. split; [exact Hkeys|].
        split; [|intros Hne; contradiction Hne; reflexivity].
        intros _. eexists su, _. split; [reflexivity|]. split; [reflexivity|].
        split; [destruct new_user_id; reflexivity|].
        split; [destruct new_metadata; reflexivity|].
        split; [reflexivity|].
        intros env x ->. apply lookup_insert_eq.
    + eexists _, _, _, rq. split; [reflexivity|]. split; [reflexivity|]. split; [exact Hkeys|].
      split; [discriminate | reflexivity].
  - intros heap l s new_metadata sessions Hl. unfold session_update. rewrite Hl.
    set (rq := mk_request PUT ["users"; sh_user_id s; "sessions"; sh_session_id s] []
                          (session_update_body new_metadata)).
    assert (Hkeys : map fst (req_body rq) = match new_metadata with Some _ => ["new_metadata"] | None => [] end)
      by (destruct new_metadata; reflexivity).
    unfold server_update_session. cbn [req_body rq].
    rewrite session_update_body_metadata.
    destruct (sessions !! sh_session_id s) as [ss|] eqn:Hss.
    + destruct (String.eqb_spec (sh_user_id ss) (sh_user_id s)) as [Hu|Hu].
      * eexists _, _, _, rq. cbn. split; [reflexivity|]. split; [reflexivity|]. split; [exact Hkeys|].
        split; [|intros Hne; contradiction Hne; reflexivity].
        intros _. eexists ss, _. split; [reflexivity|]. split; [reflexivity|].
        split; [reflexivity|]. split; [reflexivity|].
        split; [destruct new_metadata; reflexivity|].
        split; [reflexivity|].
        intros env x ->. apply lookup_insert_eq.
      * eexists _, _, _, rq. split; [reflexivity|]. split; [reflexivity|]. split; [exact Hkeys|].
        split; [discriminate | reflexivity].
    + eexists _, _, _, rq. split; [reflexivity|]. split; [reflexivity|]. split; [exact Hkeys|].
      split; [discriminate | reflexivity].
Qed.

Lemma update_in_place_witness :
  (exists res heap' users' rq,
     update heap_example 1%positive (Some "john_doe") None users_example 9 = Some (res, heap', users', [rq]) /\
     res = Ok tt /\ heap' !! 1%positive = Some (mk_user "john_doe" ∅ 0 9)) /\
  (exists res heap' sessions' rq,
     session_update session_heap_example 1%positive (Some (<["type" := "support_chat"]> ∅)) session_store_example
       = Some (res, heap', sessions', [rq]) /\
     res = Ok tt /\
     heap' !! 1%positive = Some (mk_session_handle "s1" "user123" Pending (<["type" := "support_chat"]> ∅))).
Proof.
  split.
  - destruct (proj1 update_in_place heap_example 1%positive (mk_user "user123" ∅ 0 3) (Some "john_doe") None
                users_example 9 eq_refl) as [res [heap' [users' [rq [H _]]]]].
    exists res, heap', users', rq. split; [exact H|].
    vm_compute in H. injection H as <- <- <- <-. split; reflexivity.
  - destruct (proj2 update_in_place session_heap_example 1%positive
                (mk_session_handle "s1" "user123" Pending ∅) (Some (<["type" := "support_chat"]> ∅))
                session_store_example eq_refl) as [res [heap' [sessions' [rq [H _]]]]].
    exists res, heap', sessions', rq. split; [exact H|].
    vm_compute in H. injection H as <- <- <- <-. split; reflexivity.
Defined.

Lemma expire_version_number now reason (v : memory_version) :
  version_number (expire now reason v) = version_number v.
Proof. unfold expire. destruct (v_expiry v); reflexivity. Qed.

Lemma apply_memory_op_sequential (store : gmap string memory_entry) op :
  map_Forall (fun _ e => versions_sequential e) store ->
  map_Forall (fun _ e => versions_sequential e) (apply_memory_op store op).
Proof.
  intros Hinv. destruct op as [id cats content now sid | id content now sid reason]; simpl.
  - destruct (store !! id); [exact Hinv|].
    apply map_Forall_insert_2; [|exact Hinv].
    split; [reflexivity | discriminate].
  - destruct (store !! id) as [e|] eqn:He; [|exact Hinv].
    apply map_Forall_insert_2; [|exact Hinv].
    destruct (map_Forall_lookup_1 _ _ _ _ Hinv He) as [Hseq _].
    unfold versions_sequential; simpl. split.
    + rewrite map_app, map_map, length_app, length_map. simpl.
      rewrite Nat.add_1_r, seq_S.
      replace (map (fun x => version_number (expire now reason x)) (history e))
        with (map version_number (history e))
        by (apply map_ext; intros v; symmetry; apply expire_version_number).
      rewrite Hseq. reflexivity.
    + intros H. apply app_eq_nil in H as [_ H]. discriminate.
Qed.

Lemma run_memory_ops_sequential ops :
  map_Forall (fun _ e => versions_sequential e) (run_memory_ops ops).
Proof.
  unfold run_memory_ops.
  assert (Hgen : forall s, map_Forall (fun _ e => versions_sequential e) s ->
                   map_Forall (fun _ e => versions_sequential e) (foldl apply_memory_op s ops)).
  { induction ops as [|op ops IH]; intros s Hs; simpl; [exact Hs|].
    apply IH, apply_memory_op_sequential, Hs. }
  apply Hgen, map_Forall_empty.
Qed.

(** C8: every Memory item built from a memory the service holds satisfies
    [version_number <= total_versions]; its [previous_versions], when
    present, has [total_versions - 1] entries; and [has_previous_versions]
    is true exactly when [total_versions > 1]. *)
Theorem memory_version_invariants ops id e include_previous mv :
  run_memory_ops ops !! id = Some e ->
  memory_view e include_previous = Some mv ->
  (m_version_number mv <= m_total_versions mv)%nat /\
  (forall ps, m_previous_versions mv = Some ps -> List.length ps = (m_total_versions mv - 1)%nat) /\
  (m_has_previous_versions mv = true <-> (1 < m_total_versions mv)%nat).
Proof.
  intros He Hv.
  destruct (map_Forall_lookup_1 _ _ _ _ (run_memory_ops_sequential ops) He) as [Hseq Hne].
  unfold memory_view in Hv.
  revert Hv Hseq Hne. generalize (history e) as h. intros h.
  induction h as [|cur older _] using rev_ind; intros Hv Hseq Hne; [contradiction|].
  clear Hne. rewrite last_snoc in Hv. injection Hv as <-. cbn.
  rewrite removelast_last, length_app. simpl.
  split; [|split].
  - rewrite map_app, length_app in Hseq. simpl in Hseq.
    rewrite Nat.add_1_r, seq_S in Hseq.
    apply app_inj_tail in Hseq as [_ ->]. lia.
  - intros ps Hps. destruct include_previous; [|discriminate].
    injection Hps as <-. rewrite length_map. lia.
  - rewrite negb_true_iff, bool_decide_eq_false.
    destruct older as [|w ws]; simpl; [split; [contradiction|lia]|].
    split; [lia | discriminate].
Qed.

Definition memory_ops_example : list memory_op :=
  [CreateMemory "m1" ["food"] "likes tea" 1 "s1";
   EditMemory "m1" "likes coffee" 2 "s2" "new version created"].

Lemma memory_version_invariants_witness :
  match run_memory_ops memory_ops_example !! "m1" with
  | Some e =>
      match memory_view e true with
      | Some mv => (m_version_number mv <= m_total_versions mv)%nat /\
                   m_has_previous_versions mv = true
      | None => False
      end
  | None => False
  end.
Proof.
  destruct (run_memory_ops memory_ops_example !! "m1") as [e|] eqn:He;
    [|vm_compute in He; discriminate].
  destruct (memory_view e true) as [mv|] eqn:Hv;
    [|vm_compute in He; injection He as <-; vm_compute in Hv; discriminate].
  split.
  - exact (proj1 (memory_version_invariants memory_ops_example "m1" e true mv He Hv)).
  - apply (memory_version_invariants memory_ops_example "m1" e true mv He Hv).
    vm_compute in He. injection He as <-. vm_compute in Hv. injection Hv as <-.
    vm_compute. lia.
Defined.

(* ===================================================================== *)
(** ** The release script on decimal versions *)
(* ===================================================================== *)

(** *** Strings *)

Lemma all_chars_app p s t : all_chars p (s ++ t) = all_chars p s && all_chars p t.
Proof. induction s as [|c s IH]; simpl; [reflexivity|]. rewrite IH. apply andb_assoc. Qed.

Lemma all_chars_impl (p q : ascii -> bool) s :
  (forall c, p c = true -> q c = true) -> all_chars p s = true -> all_chars q s = true.
Proof.
  intros Hpq. induction s as [|c s IH]; simpl; [reflexivity|].
  intros [Hc Hs]%andb_true_iff. rewrite (Hpq c Hc). exact (IH Hs).
Qed.

Lemma all_chars_neq p c s a :
  all_chars p (String a s) = true -> p c = false -> a <> c /\ all_chars p s = true.
Proof. simpl. intros [Ha Hs]%andb_true_iff Hc. split; [intros ->; congruence | exact Hs]. Qed.

Lemma strip_prefix_app s t : strip_prefix s (s ++ t) = Some t.
Proof.
  induction s as [|a s IH]; simpl; [reflexivity|].
  destruct (ascii_dec a a); [exact IH | contradiction].
Qed.

Lemma split_at_app p c s t :
  all_chars p s = true -> p c = false -> split_at c (s ++ String c t) = s :: split_at c t.
Proof.
  intros Hs Hc. induction s as [|a s IH]; simpl.
  - destruct (ascii_dec c c); [reflexivity | contradiction].
  - destruct (all_chars_neq p c s a Hs Hc) as [Ha Hs'].
    destruct (ascii_dec a c); [contradiction|]. rewrite (IH Hs'). reflexivity.
Qed.

Lemma split_at_none p c s : all_chars p s = true -> p c = false -> split_at c s = [s].
Proof.
  intros Hs Hc. induction s as [|a s IH]; simpl; [reflexivity|].
  destruct (all_chars_neq p c s a Hs Hc) as [Ha Hs'].
  destruct (ascii_dec a c); [contradiction|]. rewrite (IH Hs'). reflexivity.
Qed.

Lemma first_line_app p s t :
  all_chars p s = true -> p newline = false -> first_line (s ++ t) = s ++ first_line t.
Proof.
  intros Hs Hc. induction s as [|a s IH]; simpl; [reflexivity|].
  destruct (all_chars_neq p newline s a Hs Hc) as [Ha Hs'].
  destruct (ascii_dec a newline); [contradiction|]. rewrite (IH Hs'). reflexivity.
Qed.

Lemma span_nonquote_app p s t :
  all_chars p s = true -> p dq = false -> span_nonquote (s ++ String dq t) = (s, String dq t).
Proof.
  intros Hs Hc. induction s as [|a s IH]; simpl.
  - destruct (ascii_dec dq dq); [reflexivity | contradiction].
  - destruct (all_chars_neq p dq s a Hs Hc) as [Ha Hs'].
    destruct (ascii_dec a dq); [contradiction|]. rewrite (IH Hs'). reflexivity.
Qed.

(** Whatever precedes it, a double quote ends the quote-free prefix. *)
Lemma span_nonquote_quote s t : exists v q rest, span_nonquote (s ++ String dq t) = (v, String q rest).
Proof.
  induction s as [|a s IH]; simpl.
  - destruct (ascii_dec dq dq); [eauto | contradiction].
  - destruct (ascii_dec a dq); [eauto|].
    destruct IH as (v & q & rest & ->). eauto.
Qed.

Lemma sed_rhs_plain s :
  all_chars plain_char s = true -> sed_rhs s = Some (map RLit (list_ascii_of_string s)).
Proof.
  induction s as [|a s IH]; simpl; [reflexivity|].
  intros [Ha Hs]%andb_true_iff. unfold plain_char in Ha.
  destruct (ascii_dec a "/") as [->|]; [discriminate|].
  destruct (ascii_dec a "092") as [->|]; [discriminate|].
  rewrite (IH Hs). destruct (ascii_dec a "&") as [->|]; [discriminate|]. reflexivity.
Qed.

Lemma expand_lits s m : expand (map RLit (list_ascii_of_string s)) m = s.
Proof. induction s as [|a s IH]; simpl; [reflexivity|]. rewrite IH. reflexivity. Qed.

Lemma append_cons a s t : String a s ++ t = String a (s ++ t).
Proof. reflexivity. Qed.

Lemma append_empty_r s : s ++ "" = s.
Proof. induction s as [|a s IH]; [reflexivity|]. rewrite append_cons, IH. reflexivity. Qed.

Lemma append_assoc s t u : (s ++ t) ++ u = s ++ t ++ u.
Proof. induction s as [|a s IH]; [reflexivity|]. rewrite !append_cons, IH. reflexivity. Qed.

Lemma version_char_plain c : version_char c = true -> plain_char c = true.
Proof.
  unfold version_char, plain_char, is_digit. intros H.
  destruct (Ascii.eqb_spec c "/") as [->|]; [discriminate|].
  destruct (Ascii.eqb_spec c "092") as [->|]; [discriminate|].
  destruct (Ascii.eqb_spec c "&") as [->|]; [discriminate|]. reflexivity.
Qed.

(** *** Decimal numerals *)

Lemma uint_string_digits d : all_chars is_digit (uint_string d) = true.
Proof. induction d; simpl; auto. Qed.

Lemma N_dec_digits n : all_chars version_char (N_dec n) = true.
Proof.
  apply (all_chars_impl is_digit); [|apply uint_string_digits].
  intros c Hc. unfold version_char. rewrite Hc. reflexivity.
Qed.

Lemma N_dec_nonempty n : N_dec n <> "".
Proof.
  unfold N_dec. destruct n as [|p]; [discriminate|].
  pose proof (DecimalPos.Unsigned.to_uint_nonnil p) as H.
  change (N.to_uint (Npos p)) with (Pos.to_uint p).
  destruct (Pos.to_uint p); simpl; [contradiction|..]; discriminate.
Qed.

Lemma uint_string_inj d d' : uint_string d = uint_string d' -> d = d'.
Proof.
  revert d'. induction d; intros d'; destruct d'; simpl; intros H;
    try discriminate; try reflexivity; injection H as H; f_equal; auto.
Qed.

Lemma N_dec_inj n n' : N_dec n = N_dec n' -> n = n'.
Proof. intros H. apply DecimalN.Unsigned.to_uint_inj, uint_string_inj, H. Qed.

Lemma pos_of_uint_acc_uval d acc : Z.pos (Pos.of_uint_acc d acc) = uval (Z.pos acc) d.
Proof.
  revert acc. induction d as [|d IH|d IH|d IH|d IH|d IH|d IH|d IH|d IH|d IH|d IH];
    intros acc; simpl; [reflexivity|..]; rewrite IH; f_equal; lia.
Qed.

Lemma N_of_uint_uval d : Z.of_N (N.of_uint d) = uval 0 d.
Proof.
  unfold N.of_uint.
  induction d as [|d IH|d|d|d|d|d|d|d|d|d]; simpl; try exact IH; try reflexivity;
    apply pos_of_uint_acc_uval.
Qed.

Lemma uval_N n : Z.of_N n = uval 0 (N.to_uint n).
Proof. rewrite <- (DecimalN.Unsigned.of_to n) at 1. apply N_of_uint_uval. Qed.

Lemma uval_mono acc d : 0 <= acc -> acc <= uval acc d.
Proof.
  revert acc. induction d as [|d IH|d IH|d IH|d IH|d IH|d IH|d IH|d IH|d IH|d IH];
    intros acc H; simpl; [lia|..]; (etransitivity; [|apply IH]; lia).
Qed.

Lemma int64_wrap_small z : 0 <= z < 2 ^ 63 -> int64_wrap z = z.
Proof.
  intros H. unfold int64_wrap. rewrite Z.mod_small by lia.
  destruct (Z.ltb_spec z (2 ^ 63)); lia.
Qed.

Lemma strlong_uval acc d :
  0 <= acc -> uval acc d < 2 ^ 63 -> strlong_loop 10 acc (uint_string d) = Some (uval acc d).
Proof.
  revert acc. induction d as [|d IH|d IH|d IH|d IH|d IH|d IH|d IH|d IH|d IH|d IH];
    intros acc H0 Hb; [reflexivity|..];
    (cbn [uint_string strlong_loop uval] in *;
     match goal with |- context [digit_of ?c] => let v := eval vm_compute in (digit_of c) in
       change (digit_of c) with v end;
     cbv iota beta;
     match goal with |- context [(?k <? 10)%Z] => change (k <? 10)%Z with true end;
     cbv iota beta;
     match goal with |- context [int64_wrap ?z] =>
       pose proof (uval_mono z d ltac:(lia)); rewrite (int64_wrap_small z) by lia end;
     apply IH; [lia | exact Hb]).
Qed.

Lemma uint_normalized n : N.to_uint n = Decimal.unorm (N.to_uint n).
Proof.
  pose proof (DecimalN.Unsigned.to_of (N.to_uint n)) as H.
  rewrite DecimalN.Unsigned.of_to in H. exact H.
Qed.

Lemma unorm_D0_nil d : Decimal.D0 d = Decimal.unorm (Decimal.D0 d) -> d = Decimal.Nil.
Proof.
  rewrite DecimalFacts.unorm_D0. unfold Decimal.unorm.
  pose proof (DecimalFacts.nb_digits_nzhead d) as Hn.
  destruct (Decimal.nzhead d) eqn:E; intros H; try discriminate.
  - injection H as ->. reflexivity.
  - injection H as <-. simpl in Hn. lia.
Qed.

Lemma arith_value_N_dec n : Z.of_N n < 2 ^ 63 -> arith_value (N_dec n) = Some (Z.of_N n).
Proof.
  intros Hb. rewrite (uval_N n) in *. unfold N_dec.
  pose proof (uint_normalized n) as Hnorm.
  destruct (N.to_uint n) as [|d|d|d|d|d|d|d|d|d|d];
    [reflexivity| apply unorm_D0_nil in Hnorm; subst d; reflexivity |..];
    (change (arith_value (uint_string ?x)) with (strlong_loop 10 0 (uint_string x));
     apply strlong_uval; [lia | exact Hb]).
Qed.

Lemma incr_N_dec n : Z.of_N n + 1 < 2 ^ 63 -> incr (N_dec n) = Some (N_dec (n + 1)).
Proof.
  intros Hb. unfold incr. rewrite arith_value_N_dec by lia.
  rewrite int64_wrap_small by lia. unfold Z_dec.
  destruct (Z.ltb_spec (Z.of_N n + 1) 0); [lia|].
  replace (Z.of_N n + 1) with (Z.of_N (n + 1)) by lia. rewrite N2Z.id. reflexivity.
Qed.

Lemma append_char a t : String a "" ++ t = String a t.
Proof. reflexivity. Qed.

Lemma first_line_all p s : all_chars p s = true -> p newline = false -> first_line s = s.
Proof.
  intros Hs Hc. induction s as [|a s IH]; simpl; [reflexivity|].
  destruct (all_chars_neq p newline s a Hs Hc) as [Ha Hs'].
  destruct (ascii_dec a newline); [contradiction|]. rewrite (IH Hs'). reflexivity.
Qed.

Lemma first_line_idem s : first_line (first_line s) = first_line s.
Proof.
  induction s as [|a s IH]; simpl; [reflexivity|].
  destruct (ascii_dec a newline); simpl; [reflexivity|].
  destruct (ascii_dec a newline); [contradiction|]. rewrite IH. reflexivity.
Qed.

(** *** Version strings *)

Lemma dec_version_chars M m P : all_chars version_char (dec_version M m P) = true.
Proof. unfold dec_version. rewrite !all_chars_app, !N_dec_digits. reflexivity. Qed.

Lemma dec_version_nonempty M m P : dec_version M m P <> "".
Proof.
  unfold dec_version. pose proof (N_dec_nonempty M) as H.
  destruct (N_dec M); [contradiction | discriminate].
Qed.

Lemma read_fields_dec M m P : read_fields (dec_version M m P) = [N_dec M; N_dec m; N_dec P].
Proof.
  unfold read_fields. rewrite (first_line_all version_char) by (apply dec_version_chars || reflexivity).
  unfold dec_version. rewrite !append_char.
  rewrite (split_at_app is_digit) by (apply uint_string_digits || reflexivity).
  rewrite (split_at_app is_digit) by (apply uint_string_digits || reflexivity).
  rewrite (split_at_none is_digit) by (apply uint_string_digits || reflexivity).
  unfold drop_trailing_empty. simpl.
  pose proof (N_dec_nonempty P) as H. destruct (N_dec P); [contradiction | reflexivity].
Qed.

Lemma dec_version_inj M m P M' m' P' :
  dec_version M m P = dec_version M' m' P' -> M = M' /\ m = m' /\ P = P'.
Proof.
  intros H. apply (f_equal read_fields) in H. rewrite !read_fields_dec in H.
  injection H as H1 H2 H3. apply N_dec_inj in H1, H2, H3. auto.
Qed.

Lemma valid_part_cases part :
  valid_part part = true -> part = "major" \/ part = "minor" \/ part = "patch".
Proof.
  unfold valid_part. intros H.
  apply orb_true_iff in H as [H|H]; [apply orb_true_iff in H as [H|H]|];
    apply String.eqb_eq in H; auto.
Qed.

Lemma spec_bumped_version_dec part M m P :
  valid_part part = true ->
  exists M' m' P', spec_bumped_version part M m P = dec_version M' m' P' /\ (M', m', P') <> (M, m, P).
Proof.
  intros [-> | [-> | ->]]%valid_part_cases.
  - exists (M + 1)%N, 0%N, 0%N. split; [reflexivity|]. intros H. injection H. lia.
  - exists M, (m + 1)%N, 0%N. split; [reflexivity|]. intros H. injection H. lia.
  - exists M, m, (P + 1)%N. split; [reflexivity|]. intros H. injection H. lia.
Qed.

Lemma spec_bumped_version_chars part M m P :
  valid_part part = true -> all_chars version_char (spec_bumped_version part M m P) = true.
Proof.
  intros Hp. destruct (spec_bumped_version_dec part M m P Hp) as (M' & m' & P' & -> & _).
  apply dec_version_chars.
Qed.

Lemma spec_bumped_version_nonempty part M m P :
  valid_part part = true -> spec_bumped_version part M m P <> "".
Proof.
  intros Hp. destruct (spec_bumped_version_dec part M m P Hp) as (M' & m' & P' & -> & _).
  apply dec_version_nonempty.
Qed.

Lemma spec_bumped_version_changes part M m P :
  valid_part part = true -> spec_bumped_version part M m P <> dec_version M m P.
Proof.
  intros Hp. destruct (spec_bumped_version_dec part M m P Hp) as (M' & m' & P' & -> & Hne).
  intros H. apply dec_version_inj in H as (-> & -> & ->). apply Hne. reflexivity.
Qed.

(** Lines 47-65 on a version written in decimal: the three fields are read
    back as the numbers, and the bumped one is incremented. *)
Lemma new_version_dec part M m P :
  valid_part part = true ->
  Z.of_N M < 2 ^ 63 - 1 -> Z.of_N m < 2 ^ 63 - 1 -> Z.of_N P < 2 ^ 63 - 1 ->
  new_version part (dec_version M m P) = Some (spec_bumped_version part M m P).
Proof.
  intros Hp HM Hm HP. unfold new_version. rewrite read_fields_dec. cbn [nth].
  unfold bump_parts. rewrite !incr_N_dec by lia.
  destruct (valid_part_cases part Hp) as [-> | [-> | ->]]; reflexivity.
Qed.

Lemma new_version_first_line part s : new_version part s = new_version part (first_line s).
Proof. unfold new_version, read_fields. rewrite first_line_idem. reflexivity. Qed.

(** *** The two files *)

Lemma map_prefix_id (f : string -> string) pre x post :
  Forall (fun l => f l = l) pre -> map f (app pre (x :: post)) = app pre (f x :: map f post).
Proof.
  intros H. induction H as [|l pre Hl _ IH]; [reflexivity|]. simpl. rewrite Hl, IH. reflexivity.
Qed.

Lemma grep_version_line_match l :
  grep_version_line l = true -> match_assign version_key l <> None.
Proof.
  unfold grep_version_line, match_assign.
  destruct (strip_prefix version_key l); [|discriminate].
  destruct (span_nonquote s) as [v [|q rest]]; [destruct v; discriminate | discriminate].
Qed.

Lemma filter_grep_none pre :
  Forall (fun l => match_assign version_key l = None) pre -> List.filter grep_version_line pre = [].
Proof.
  intros H. induction H as [|l pre Hl _ IH]; [reflexivity|]. simpl.
  destruct (grep_version_line l) eqn:E; [|exact IH].
  exfalso. exact (grep_version_line_match l E Hl).
Qed.

Lemma version_line_match v :
  all_chars version_char v = true ->
  match_assign version_key (version_key ++ v ++ dq_s) = Some (version_key ++ v ++ dq_s, "").
Proof.
  intros Hv. unfold match_assign. rewrite strip_prefix_app. unfold dq_s.
  rewrite (span_nonquote_app version_char) by (exact Hv || reflexivity). reflexivity.
Qed.

Lemma version_line_grep v :
  v <> "" -> all_chars version_char v = true ->
  grep_version_line (version_key ++ v ++ dq_s) = true /\ cut_f2 (version_key ++ v ++ dq_s) = v.
Proof.
  intros Hne Hv. split.
  - unfold grep_version_line. rewrite strip_prefix_app. unfold dq_s.
    rewrite (span_nonquote_app version_char) by (exact Hv || reflexivity).
    destruct v; [contradiction | reflexivity].
  - unfold cut_f2, version_key. rewrite append_assoc. unfold dq_s. rewrite !append_char.
    rewrite (split_at_app (fun c => negb (Ascii.eqb c dq))) by reflexivity.
    rewrite (split_at_app version_char) by (exact Hv || reflexivity). reflexivity.
Qed.

(** The version the script reads from a pyproject whose first
    [version = "..."] line carries [v]. *)
Lemma version_lines_current pre v post :
  Forall (fun l => match_assign version_key l = None) pre ->
  v <> "" -> all_chars version_char v = true ->
  first_line (concat (String newline "")
    (map cut_f2 (List.filter grep_version_line (app pre ((version_key ++ v ++ dq_s) :: post))))) = v.
Proof.
  intros Hpre Hne Hv. rewrite List.filter_app, (filter_grep_none pre Hpre). simpl.
  destruct (version_line_grep v Hne Hv) as [Hg Hc]. rewrite Hg. simpl. rewrite Hc.
  destruct (map cut_f2 (List.filter grep_version_line post)).
  - apply (first_line_all version_char); [exact Hv | reflexivity].
  - rewrite (first_line_app version_char) by (exact Hv || reflexivity).
    rewrite append_char. simpl. apply append_empty_r.
Qed.

Lemma sed_leftmost_eq key ps l :
  sed_leftmost key ps l =
  match match_assign key l with
  | Some (m, rest) => expand ps m ++ rest
  | None => match l with EmptyString => EmptyString | String c l' => String c (sed_leftmost key ps l') end
  end.
Proof. destruct l; reflexivity. Qed.

Lemma assign_value_eq key l :
  assign_value key l =
  match strip_prefix key l with
  | Some r =>
      match span_nonquote r with
      | (v, String _ _) => Some v
      | (_, EmptyString) => match l with EmptyString => None | String _ l' => assign_value key l' end
      end
  | None => match l with EmptyString => None | String _ l' => assign_value key l' end
  end.
Proof. destruct l; reflexivity. Qed.

(** A line without an assignment is left alone by the substitution of
    line 73. *)
Lemma sed_leftmost_id key ps l : assign_value key l = None -> sed_leftmost key ps l = l.
Proof.
  induction l as [|c l IH]; intros H; rewrite sed_leftmost_eq; unfold match_assign;
    rewrite assign_value_eq in H.
  - destruct (strip_prefix key ""); [|reflexivity].
    destruct (span_nonquote s) as [v [|q rest]]; [reflexivity | discriminate].
  - destruct (strip_prefix key (String c l)).
    + destruct (span_nonquote s) as [v [|q rest]]; [|discriminate].
      rewrite (IH H). reflexivity.
    + rewrite (IH H). reflexivity.
Qed.

Lemma assign_line_sed ps old v :
  (forall m, expand ps m = init_key ++ v ++ dq_s) -> all_chars version_char v = true ->
  exists rest, sed_leftmost init_key ps (init_key ++ old ++ dq_s) = init_key ++ v ++ dq_s ++ rest /\
               assign_value init_key (init_key ++ v ++ dq_s ++ rest) = Some v.
Proof.
  intros Hps Hv. rewrite sed_leftmost_eq. unfold match_assign. rewrite strip_prefix_app.
  destruct (span_nonquote_quote old "") as (w & q & rest & Hs).
  change (String dq "") with dq_s in Hs. rewrite Hs.
  exists rest. split.
  - rewrite Hps, !append_assoc. reflexivity.
  - rewrite assign_value_eq, strip_prefix_app. unfold dq_s. rewrite append_char.
    rewrite (span_nonquote_app version_char) by (exact Hv || reflexivity). reflexivity.
Qed.

Lemma omap_none_prefix (f : string -> option string) pre :
  Forall (fun l => f l = None) pre -> omap f pre = [].
Proof. intros H. induction H as [|l pre Hl _ IH]; [reflexivity|]. simpl. rewrite Hl. exact IH. Qed.

Lemma omap_cons_some (f : string -> option string) x l y :
  f x = Some y -> omap f (x :: l) = y :: omap f l.
Proof. intros H. simpl. rewrite H. reflexivity. Qed.

(** *** The git steps *)

Lemma git_diff_quiet_clean r : worktree r = index r -> git_diff_quiet r = true.
Proof.
  intros H. unfold git_diff_quiet. apply forallb_forall. intros [p c] Hin.
  apply bool_decide_eq_true_2. rewrite H. apply elem_of_map_to_list, list_elem_of_In, Hin.
Qed.

Lemma sed_in_place_ok path f rhs r ls :
  all_chars plain_char rhs = true -> worktree r !! path = Some ls ->
  sed_in_place path f rhs r =
  inr (set_worktree r (<[path := map (f (map RLit (list_ascii_of_string rhs))) ls]> (worktree r))).
Proof. intros Hr Hl. unfold sed_in_place. rewrite sed_rhs_plain by exact Hr. rewrite Hl. reflexivity. Qed.

Lemma git_diff_quiet_index r p c :
  git_diff_quiet r = true -> index r !! p = Some c -> worktree r !! p = Some c.
Proof.
  unfold git_diff_quiet. intros Hq Hp. apply forallb_forall with (x := (p, c)) in Hq.
  - exact (bool_decide_eq_true_1 _ Hq).
  - apply list_elem_of_In, elem_of_map_to_list, Hp.
Qed.

Lemma git_add_two r p1 p2 c1 c2 :
  worktree r !! p1 = Some c1 -> worktree r !! p2 = Some c2 ->
  git_add [p1; p2] r = inr (mk_repo (worktree r) (<[p2 := c2]> (<[p1 := c1]> (index r))) (head r) (tags r)
                                    (pushed r) (remote_refuses r)).
Proof.
  intros H1 H2. unfold git_add. simpl forallb.
  rewrite !bool_decide_eq_true_2 by (left; eexists; eassumption).
  simpl. unfold stage. simpl. rewrite H1, H2. reflexivity.
Qed.

Lemma git_commit_ok r :
  index r <> head r ->
  git_commit r = inr (mk_repo (worktree r) (index r) (index r) (tags r) (pushed r) (remote_refuses r)).
Proof. intros H. unfold git_commit. rewrite bool_decide_eq_false_2 by exact H. reflexivity. Qed.

Lemma git_tag_ok name msg r :
  tag_name_ok name = true -> ~ In name (map fst (tags r)) ->
  git_tag name msg r = inr (mk_repo (worktree r) (index r) (head r) (app (tags r) [(name, stripspace msg)])
                                    (pushed r) (remote_refuses r)).
Proof.
  intros Hn H. unfold git_tag. rewrite Hn. cbn [negb]. destruct (existsb _ (tags r)) eqn:E; [|reflexivity].
  exfalso. apply existsb_exists in E as ([n x] & Hin & Hn'). apply String.eqb_eq in Hn'. subst n.
  apply H. exact (in_map fst _ _ Hin).
Qed.

Lemma git_push_ok ref r :
  ~ In ref (remote_refuses r) ->
  git_push ref r = inr (mk_repo (worktree r) (index r) (head r) (tags r) (app (pushed r) [ref])
                                (remote_refuses r)).
Proof.
  intros H. unfold git_push. destruct (existsb _ _) eqn:E; [|reflexivity].
  exfalso. apply existsb_exists in E as (x & Hin & Hx). apply String.eqb_eq in Hx. subst x.
  exact (H Hin).
Qed.

(** The tag and the two pushes, when git and the remote accept them. *)
Lemma tag_and_push_ok name msg r :
  tag_name_ok name = true -> ~ In name (map fst (tags r)) ->
  ~ In "main" (remote_refuses r) -> ~ In name (remote_refuses r) ->
  tag_and_push name msg r =
    (0, mk_repo (worktree r) (index r) (head r) (app (tags r) [(name, stripspace msg)])
                (app (pushed r) ["main"; name]) (remote_refuses r)).
Proof.
  intros Hn Ht Hm Hr. unfold tag_and_push. rewrite git_tag_ok by assumption. cbv iota beta.
  rewrite git_push_ok by exact Hm. cbv iota beta.
  rewrite git_push_ok by exact Hr. cbn [worktree index head tags pushed remote_refuses].
  rewrite <- app_assoc. reflexivity.
Qed.

(** *** Tag names *)

Lemma is_digit_disposition c : is_digit c = true -> refname_disposition c = 0%nat.
Proof.
  unfold is_digit, refname_disposition. cbv zeta. intros [H1 H2]%andb_true_iff.
  apply Nat.leb_le in H1, H2. remember (nat_of_ascii c) as n eqn:En. clear En.
  assert (Hn : n = 48%nat \/ n = 49%nat \/ n = 50%nat \/ n = 51%nat \/ n = 52%nat \/
               n = 53%nat \/ n = 54%nat \/ n = 55%nat \/ n = 56%nat \/ n = 57%nat) by lia.
  destruct Hn as [->|[->|[->|[->|[->|[->|[->|[->|[->| ->]]]]]]]]]; reflexivity.
Qed.

Lemma digit_not_dot d : is_digit d = true -> Ascii.eqb d "." = false.
Proof. destruct (Ascii.eqb_spec d ".") as [->|]; [discriminate | reflexivity]. Qed.

Lemma refname_chars_digits last s t :
  all_chars is_digit s = true -> s <> "" ->
  exists d, is_digit d = true /\ refname_component_chars last (s ++ t) = refname_component_chars d t.
Proof.
  revert last. induction s as [|c s IH]; intros last Hs Hne; [contradiction|].
  cbn [all_chars] in Hs. apply andb_true_iff in Hs as [Hc Hs].
  rewrite append_cons. cbn [refname_component_chars]. rewrite (is_digit_disposition c Hc).
  destruct s as [|c' s'].
  - exists c. split; [exact Hc | reflexivity].
  - apply IH; [exact Hs | discriminate].
Qed.

Lemma refname_chars_dot last t :
  refname_component_chars last (String "." t) = negb (Ascii.eqb last ".") && refname_component_chars "." t.
Proof. reflexivity. Qed.

Lemma refname_chars_v D : refname_component_chars "000" ("v" ++ D) = refname_component_chars "v" D.
Proof. reflexivity. Qed.

Lemma refname_chars_version M m P : refname_component_chars "v" (dec_version M m P) = true.
Proof.
  unfold dec_version.
  destruct (refname_chars_digits "v" (N_dec M) ("." ++ N_dec m ++ "." ++ N_dec P)
              (uint_string_digits _) (N_dec_nonempty M)) as (d1 & Hd1 & ->).
  rewrite append_char, refname_chars_dot, (digit_not_dot d1 Hd1). cbn [negb andb].
  destruct (refname_chars_digits "." (N_dec m) ("." ++ N_dec P)
              (uint_string_digits _) (N_dec_nonempty m)) as (d2 & Hd2 & ->).
  rewrite append_char, refname_chars_dot, (digit_not_dot d2 Hd2). cbn [negb andb].
  rewrite <- (append_empty_r (N_dec P)).
  destruct (refname_chars_digits "." (N_dec P) ""
              (uint_string_digits _) (N_dec_nonempty P)) as (d3 & Hd3 & ->).
  reflexivity.
Qed.

Lemma ends_with_chars p suf s : all_chars p s = true -> ends_with suf s = true -> all_chars p suf = true.
Proof.
  induction s as [|c s IH]; intros Hs He; cbn [ends_with] in He;
    apply orb_true_iff in He as [He|He].
  - apply String.eqb_eq in He. subst suf. reflexivity.
  - discriminate He.
  - apply String.eqb_eq in He. subst suf. exact Hs.
  - cbn [all_chars] in Hs. apply andb_true_iff in Hs as [_ Hs]. exact (IH Hs He).
Qed.

Lemma app_nonempty_l s t : s <> "" -> s ++ t <> "".
Proof. destruct s; [contradiction | discriminate]. Qed.

Lemma last_char_app s t : t <> "" -> last_char (s ++ t) = last_char t.
Proof.
  intros Ht. induction s as [|c s IH]; [reflexivity|].
  rewrite append_cons. cbn [last_char]. destruct (s ++ t) as [|a u] eqn:E.
  - destruct s; [cbn in E; contradiction | discriminate].
  - exact IH.
Qed.

Lemma last_char_all p s c : all_chars p s = true -> last_char s = Some c -> p c = true.
Proof.
  induction s as [|a s IH]; intros Hs Hl; [discriminate|].
  cbn [all_chars] in Hs. apply andb_true_iff in Hs as [Ha Hs].
  destruct s as [|b s']; cbn [last_char] in Hl.
  - injection Hl as <-. exact Ha.
  - exact (IH Hs Hl).
Qed.

(** The tag name of a decimal version is accepted by [git tag]. *)
Lemma tag_name_ok_version M m P : tag_name_ok ("v" ++ dec_version M m P) = true.
Proof.
  assert (Hslash : all_chars (fun c => negb (Ascii.eqb c "/")) ("v" ++ dec_version M m P) = true).
  { rewrite all_chars_app. apply andb_true_iff. split; [reflexivity|].
    apply (all_chars_impl version_char); [|apply dec_version_chars].
    intros c Hc. destruct (Ascii.eqb_spec c "/") as [->|]; [discriminate Hc | reflexivity]. }
  assert (Hends : ends_with ".lock" ("v" ++ dec_version M m P) = false).
  { destruct (ends_with _ _) eqn:E; [|reflexivity].
    assert (Hv : all_chars (fun c => Ascii.eqb c "v" || version_char c) ("v" ++ dec_version M m P) = true).
    { rewrite all_chars_app. apply andb_true_iff. split; [reflexivity|].
      apply (all_chars_impl version_char); [|apply dec_version_chars].
      intros c Hc. rewrite Hc. apply orb_true_r. }
    pose proof (ends_with_chars _ _ _ Hv E) as H. discriminate H. }
  assert (Hlast : last_char ("refs/tags/" ++ ("v" ++ dec_version M m P)) = last_char (N_dec P)).
  { unfold dec_version.
    repeat (rewrite last_char_app;
            [|first [apply N_dec_nonempty | apply app_nonempty_l; first [discriminate | apply N_dec_nonempty]]]).
    reflexivity. }
  set (D := dec_version M m P) in *.
  unfold tag_name_ok, check_refname_format.
  change ("refs/tags/" ++ ("v" ++ D)) with ("refs" ++ String "/" ("tags" ++ String "/" ("v" ++ D))).
  rewrite (split_at_app (fun c => negb (Ascii.eqb c "/"))) by reflexivity.
  rewrite (split_at_app (fun c => negb (Ascii.eqb c "/"))) by reflexivity.
  rewrite (split_at_none (fun c => negb (Ascii.eqb c "/"))) by (exact Hslash || reflexivity).
  change ("refs" ++ String "/" ("tags" ++ String "/" ("v" ++ D))) with ("refs/tags/" ++ ("v" ++ D)).
  rewrite Hlast.
  assert (Hd : match last_char (N_dec P) with Some c => Ascii.eqb c "." | None => false end = false).
  { destruct (last_char (N_dec P)) as [c|] eqn:E; [|reflexivity].
    apply digit_not_dot, (last_char_all _ _ _ (uint_string_digits _) E). }
  rewrite Hd.
  assert (Hc : refname_component_ok ("v" ++ D) = true).
  { unfold refname_component_ok. rewrite refname_chars_v. unfold D. rewrite refname_chars_version.
    fold D. rewrite Hends. reflexivity. }
  cbn [forallb]. rewrite Hc. reflexivity.
Qed.

Lemma init_path_ne : pyproject_path <> init_path.
Proof. discriminate. Qed.

(* ===================================================================== *)
(** ** The release script: further properties *)
(* ===================================================================== *)

(** *** Bash arithmetic in 64 bits *)

Lemma int64_wrap_mod z : int64_wrap z mod 2 ^ 64 = z mod 2 ^ 64.
Proof.
  unfold int64_wrap. destruct (_ <? _).
  - apply Z.mod_mod. lia.
  - rewrite Zminus_mod, Z_mod_same_full, Z.sub_0_r, !Z.mod_mod by lia. reflexivity.
Qed.

Lemma int64_wrap_congr a b : a mod 2 ^ 64 = b mod 2 ^ 64 -> int64_wrap a = int64_wrap b.
Proof. unfold int64_wrap. intros H. rewrite H. reflexivity. Qed.

Lemma int64_wrap_idem z : int64_wrap (int64_wrap z) = int64_wrap z.
Proof. apply int64_wrap_congr, int64_wrap_mod. Qed.

Lemma uval_congr a b d : a mod 2 ^ 64 = b mod 2 ^ 64 -> uval a d mod 2 ^ 64 = uval b d mod 2 ^ 64.
Proof.
  revert a b. induction d as [|d IH|d IH|d IH|d IH|d IH|d IH|d IH|d IH|d IH|d IH];
    intros a b H; simpl; [exact H|..]; apply IH;
    rewrite (Zplus_mod (a * 10)), (Zplus_mod (b * 10)), (Zmult_mod a), (Zmult_mod b), H;
    reflexivity.
Qed.

Lemma strlong_wrap acc d :
  int64_wrap acc = acc -> strlong_loop 10 acc (uint_string d) = Some (int64_wrap (uval acc d)).
Proof.
  revert acc. induction d as [|d IH|d IH|d IH|d IH|d IH|d IH|d IH|d IH|d IH|d IH];
    intros acc Hacc; [cbn; rewrite Hacc; reflexivity|..];
    (cbn [uint_string strlong_loop uval];
     match goal with |- context [digit_of ?c] => let v := eval vm_compute in (digit_of c) in
       change (digit_of c) with v end;
     cbv iota beta;
     match goal with |- context [(?k <? 10)%Z] => change (k <? 10)%Z with true end;
     cbv iota beta;
     rewrite IH by apply int64_wrap_idem; f_equal;
     apply int64_wrap_congr, uval_congr, int64_wrap_mod).
Qed.

Lemma arith_value_N_dec_wrap n : arith_value (N_dec n) = Some (int64_wrap (Z.of_N n)).
Proof.
  rewrite (uval_N n). unfold N_dec.
  pose proof (uint_normalized n) as Hnorm.
  destruct (N.to_uint n) as [|d|d|d|d|d|d|d|d|d|d];
    [reflexivity| apply unorm_D0_nil in Hnorm; subst d; reflexivity |..];
    (change (arith_value (uint_string ?x)) with (strlong_loop 10 0 (uint_string x));
     apply strlong_wrap; reflexivity).
Qed.

Lemma incr_N_dec_wrap n : incr (N_dec n) = Some (Z_dec (int64_wrap (Z.of_N n + 1))).
Proof.
  unfold incr. rewrite arith_value_N_dec_wrap. do 2 f_equal.
  apply int64_wrap_congr. rewrite Zplus_mod, int64_wrap_mod, <- Zplus_mod. reflexivity.
Qed.

(** *** Leading zeros *)






(** *** The steps of a run *)













(** *** A run on a decimal version, up to the tag *)

Lemma assign_line_sed_gen ps old irest v :
  (forall m, expand ps m = init_key ++ v ++ dq_s) -> all_chars version_char v = true ->
  exists rest, sed_leftmost init_key ps (init_key ++ old ++ dq_s ++ irest) = init_key ++ v ++ dq_s ++ rest /\
               assign_value init_key (init_key ++ v ++ dq_s ++ rest) = Some v.
Proof.
  intros Hps Hv. rewrite sed_leftmost_eq. unfold match_assign. rewrite strip_prefix_app.
  replace (old ++ dq_s ++ irest) with (old ++ String dq irest) by reflexivity.
  destruct (span_nonquote_quote old irest) as (w & q & rest & Hs). rewrite Hs.
  exists rest. split.
  - rewrite Hps, !append_assoc. reflexivity.
  - rewrite assign_value_eq, strip_prefix_app. unfold dq_s. rewrite append_char.
    rewrite (span_nonquote_app version_char) by (exact Hv || reflexivity). reflexivity.
Qed.

Lemma git_tag_exists name msg r : In name (map fst (tags r)) -> git_tag name msg r = inl 128.
Proof.
  intros H. unfold git_tag. destruct (existsb _ (tags r)) eqn:E; [destruct (negb _); reflexivity|].
  destruct (negb _); [reflexivity|].
  exfalso. apply in_map_iff in H as ([n x] & Hn & Hin). cbn in Hn. subst n.
  assert (Hx : existsb (fun '(n, _) => String.eqb n name) (tags r) = true).
  { apply existsb_exists. exists (name, x). split; [exact Hin | apply String.eqb_refl]. }
  congruence.
Qed.

Lemma tag_and_push_exists name msg r : In name (map fst (tags r)) -> tag_and_push name msg r = (128, r).
Proof. intros H. unfold tag_and_push. rewrite git_tag_exists by exact H. reflexivity. Qed.

(** The release script on a checkout at a decimal version M.m.P with
    nothing modified or staged: both files are rewritten, staged and
    committed, and the rest of the run is the tag and the two pushes. *)
Lemma release_run part rest (M m P : N) (r : repo) pre post ipre old irest ipost :
  valid_part part = true ->
  Z.of_N M < 2 ^ 63 - 1 -> Z.of_N m < 2 ^ 63 - 1 -> Z.of_N P < 2 ^ 63 - 1 ->
  git_diff_quiet r = true -> index r = head r ->
  worktree r !! pyproject_path = Some (app pre ((version_key ++ dec_version M m P ++ dq_s) :: post)) ->
  Forall (fun l => match_assign version_key l = None) pre ->
  worktree r !! init_path = Some (app ipre ((init_key ++ old ++ dq_s ++ irest) :: ipost)) ->
  Forall (fun l => assign_value init_key l = None) ipre ->
  exists (f1 f2 : string -> string) rest2 (PL IL : list string),
    PL = app pre ((version_key ++ spec_bumped_version part M m P ++ dq_s) :: map f1 post) /\
    IL = app ipre ((init_key ++ spec_bumped_version part M m P ++ dq_s ++ rest2) :: map f2 ipost) /\
    pyproject_version (<[init_path := IL]> (<[pyproject_path := PL]> (worktree r)))
      = spec_bumped_version part M m P /\
    init_version (<[init_path := IL]> (<[pyproject_path := PL]> (worktree r)))
      = Some (spec_bumped_version part M m P) /\
    release (part :: rest) r =
      tag_and_push ("v" ++ spec_bumped_version part M m P)
        (if String.eqb (concat " " rest) "" then "Version " ++ spec_bumped_version part M m P
         else concat " " rest)
        (mk_repo (<[init_path := IL]> (<[pyproject_path := PL]> (worktree r)))
                 (<[init_path := IL]> (<[pyproject_path := PL]> (index r)))
                 (<[init_path := IL]> (<[pyproject_path := PL]> (index r)))
                 (tags r) (pushed r) (remote_refuses r)).
Proof.
  intros Hp HM Hm HP Hq Hih Hpy Hpre Hin Hipre.
  pose proof (dec_version_chars M m P) as Hcur.
  pose proof (dec_version_nonempty M m P) as Hcur0.
  pose proof (spec_bumped_version_chars part M m P Hp) as Hnv.
  pose proof (spec_bumped_version_nonempty part M m P Hp) as Hnv0.
  pose proof (spec_bumped_version_changes part M m P Hp) as Hchg.
  pose proof (new_version_dec part M m P Hp HM Hm HP) as Hnd.
  set (cur := dec_version M m P) in *.
  set (nv := spec_bumped_version part M m P) in *.
  assert (Hnew : new_version part (current_version (worktree r)) = Some nv).
  { rewrite new_version_first_line. unfold current_version.
    change "pyproject.toml" with pyproject_path. rewrite Hpy.
    rewrite version_lines_current by assumption. exact Hnd. }
  assert (Hplain1 : all_chars plain_char ("version = " ++ dq_s ++ nv ++ dq_s) = true).
  { rewrite !all_chars_app, (all_chars_impl _ _ nv version_char_plain Hnv). reflexivity. }
  assert (Hplain2 : all_chars plain_char ("__version__ = " ++ dq_s ++ nv ++ dq_s) = true).
  { rewrite !all_chars_app, (all_chars_impl _ _ nv version_char_plain Hnv). reflexivity. }
  assert (Hexp1 : forall mt,
    expand (map RLit (list_ascii_of_string ("version = " ++ dq_s ++ nv ++ dq_s))) mt = version_key ++ nv ++ dq_s).
  { intros mt. rewrite expand_lits. unfold version_key. rewrite append_assoc. reflexivity. }
  assert (Hexp2 : forall mt,
    expand (map RLit (list_ascii_of_string ("__version__ = " ++ dq_s ++ nv ++ dq_s))) mt = init_key ++ nv ++ dq_s).
  { intros mt. rewrite expand_lits. unfold init_key. rewrite append_assoc. reflexivity. }
  destruct (assign_line_sed_gen _ old irest nv Hexp2 Hnv) as (rest2 & Hsed2 & Hassign2).
  set (f1 := sed_anchored version_key (map RLit (list_ascii_of_string ("version = " ++ dq_s ++ nv ++ dq_s)))).
  set (f2 := sed_leftmost init_key (map RLit (list_ascii_of_string ("__version__ = " ++ dq_s ++ nv ++ dq_s)))).
  set (PL' := app pre ((version_key ++ nv ++ dq_s) :: map f1 post)).
  set (IL' := app ipre ((init_key ++ nv ++ dq_s ++ rest2) :: map f2 ipost)).
  assert (HPL : map f1 (app pre ((version_key ++ cur ++ dq_s) :: post)) = PL').
  { rewrite map_prefix_id.
    - unfold f1, sed_anchored at 1. rewrite version_line_match by exact Hcur.
      rewrite Hexp1, append_empty_r. reflexivity.
    - eapply Forall_impl; [exact Hpre|]. intros l Hl. unfold f1, sed_anchored. rewrite Hl. reflexivity. }
  assert (HIL : map f2 (app ipre ((init_key ++ old ++ dq_s ++ irest) :: ipost)) = IL').
  { rewrite map_prefix_id; [unfold f2; rewrite Hsed2; reflexivity|].
    eapply Forall_impl; [exact Hipre|]. intros l Hl. apply sed_leftmost_id, Hl. }
  assert (Hchanged : <[init_path := IL']> (<[pyproject_path := PL']> (index r)) <> head r).
  { intros H. rewrite <- Hih in H.
    apply (f_equal (lookup pyproject_path)) in H.
    rewrite lookup_insert_ne in H by discriminate. rewrite lookup_insert_eq in H.
    symmetry in H. apply (git_diff_quiet_index r) in H; [|exact Hq].
    rewrite Hpy in H. injection H as H.
    apply app_inv_head in H. apply (f_equal (hd "")) in H. cbn [hd] in H.
    apply (f_equal (strip_prefix version_key)) in H. rewrite !strip_prefix_app in H.
    injection H as H. apply (f_equal span_nonquote) in H. unfold dq_s in H.
    rewrite !(span_nonquote_app version_char) in H by (assumption || reflexivity).
    injection H as H. exact (Hchg (eq_sym H)). }
  exists f1, f2, rest2, PL', IL'.
  split; [reflexivity|]. split; [reflexivity|]. split; [|split].
  - unfold pyproject_version, current_version. change "pyproject.toml" with pyproject_path.
    rewrite lookup_insert_ne by discriminate. rewrite lookup_insert_eq.
    apply version_lines_current; assumption.
  - unfold init_version. rewrite lookup_insert_eq. unfold IL'.
    rewrite omap_app, (omap_none_prefix _ ipre Hipre), app_nil_l, (omap_cons_some _ _ _ _ Hassign2).
    reflexivity.
  - unfold release. rewrite Hp. cbn [negb]. rewrite Hq. cbn [negb].
    rewrite Hnew.
    rewrite (sed_in_place_ok _ _ _ _ _ Hplain1 Hpy). fold f1. rewrite HPL. cbv iota beta.
    rewrite (sed_in_place_ok _ _ _ _ _ Hplain2)
      by (cbn [worktree set_worktree]; rewrite lookup_insert_ne by discriminate; exact Hin).
    cbn [worktree set_worktree]. fold f2. rewrite HIL. cbv iota beta.
    rewrite (git_add_two _ _ _ PL' IL')
      by (cbn [worktree set_worktree]; rewrite ?lookup_insert_ne by discriminate;
          apply lookup_insert_eq).
    cbv iota beta. cbn [worktree index head tags pushed remote_refuses set_worktree].
    rewrite git_commit_ok by exact Hchanged. cbv iota beta zeta.
    cbn [worktree index head tags pushed remote_refuses set_worktree]. reflexivity.
Qed.

Lemma spec_bumped_version_triple part M m P M1 m1 P1 :
  valid_part part = true -> bump_triple part M m P = (M1, m1, P1) ->
  spec_bumped_version part M m P = dec_version M1 m1 P1.
Proof.
  intros [-> | [-> | ->]]%valid_part_cases; cbn; intros [= <- <- <-]; reflexivity.
Qed.

Lemma bump_triple_bounds part M m P M1 m1 P1 :
  bump_triple part M m P = (M1, m1, P1) ->
  Z.of_N M < 2 ^ 63 - 2 -> Z.of_N m < 2 ^ 63 - 2 -> Z.of_N P < 2 ^ 63 - 2 ->
  Z.of_N M1 < 2 ^ 63 - 1 /\ Z.of_N m1 < 2 ^ 63 - 1 /\ Z.of_N P1 < 2 ^ 63 - 1.
Proof.
  unfold bump_triple. intros H HM Hm HP.
  destruct (String.eqb part "major"); [|destruct (String.eqb part "minor")];
    injection H as <- <- <-; lia.
Qed.

(** *** The version a release writes *)




(** C10: the script stops with status 1, leaving the repository as it was,
    when the bump type is missing or is not major, minor or patch, and
    when [git diff --quiet] reports a difference between the worktree and
    the index.  That check does not see changes that are staged but not
    committed: on a checkout with a staged, uncommitted README edit a
    patch release exits 0 and rewrites pyproject.toml (and commits the
    staged edit along with the version bump). *)
Theorem release_clean_check_misses_staged :
  (forall r, release [] r = (1, r)) /\
  (forall part rest r, valid_part part = false -> release (part :: rest) r = (1, r)) /\
  (forall part rest r, git_diff_quiet r = false -> release (part :: rest) r = (1, r)) /\
  index staged_repo <> head staged_repo /\
  git_diff_quiet staged_repo = true /\
  fst (release ["patch"] staged_repo) = 0 /\
  worktree (snd (release ["patch"] staged_repo)) !! pyproject_path <> worktree staged_repo !! pyproject_path /\
  head (snd (release ["patch"] staged_repo)) !! "README.md" = index staged_repo !! "README.md".
Proof.
  split; [intros r; reflexivity|].
  split; [intros part rest r H; unfold release; rewrite H; reflexivity|].
  split; [intros part rest r H; unfold release; destruct (valid_part part); [|reflexivity];
          rewrite H; reflexivity|].
  split.
  { intros H. apply (f_equal (lookup "README.md")) in H. vm_compute in H. discriminate H. }
  split; [vm_compute; reflexivity|].
  split; [vm_compute; reflexivity|].
  split; [vm_compute; discriminate | vm_compute; reflexivity].
Qed.


(** *** Properties of the release script *)


(** Lines 54-63 in 64-bit arithmetic: for any version M.m.P written in
    decimal, the bumped number becomes its successor reduced to a signed
    64-bit integer (so 9223372036854775807 is bumped to
    -9223372036854775808), the numbers to its left are copied and those to
    its right become 0. *)
Theorem new_version_int64 (M m P : N) :
  new_version "major" (dec_version M m P) = Some (Z_dec (int64_wrap (Z.of_N M + 1)) ++ ".0.0") /\
  new_version "minor" (dec_version M m P) =
    Some (N_dec M ++ "." ++ Z_dec (int64_wrap (Z.of_N m + 1)) ++ ".0") /\
  new_version "patch" (dec_version M m P) =
    Some (N_dec M ++ "." ++ N_dec m ++ "." ++ Z_dec (int64_wrap (Z.of_N P + 1))).
Proof.
  unfold new_version. rewrite read_fields_dec. cbn [nth]. unfold bump_parts.
  rewrite !incr_N_dec_wrap. split; [|split]; reflexivity.
Qed.


(** Without a [version = "..."] line in pyproject.toml (or without the
    file) the version read is empty, its components count as 0, and the
    script computes 1.0.0, .1.0 or ..1 instead of failing. *)
Theorem new_version_without_version_line files :
  (forall ls, files !! pyproject_path = Some ls -> List.filter grep_version_line ls = []) ->
  new_version "major" (current_version files) = Some "1.0.0" /\
  new_version "minor" (current_version files) = Some ".1.0" /\
  new_version "patch" (current_version files) = Some "..1".
Proof.
  intros H. assert (Hc : current_version files = "").
  { unfold current_version. change "pyproject.toml" with pyproject_path.
    destruct (files !! pyproject_path) as [ls|] eqn:E; [rewrite (H ls eq_refl); reflexivity | reflexivity]. }
  rewrite Hc. split; [|split]; reflexivity.
Qed.




(** The script is not atomic: on a checkout whose worktree, index and
    HEAD agree, at a version M.m.P written in decimal with numbers below
    2^63 - 1 on the first [version = "..."] line of pyproject.toml, with
    a [__version__ = "..."] line in recallrai/__init__.py, when the tag
    v<new version> already exists, [git tag] fails with status 128 after
    both files have been rewritten and the bump committed; nothing is
    pushed and no tag is added. *)
Theorem release_existing_tag_after_commit part rest (M m P : N) (r : repo) pre post ipre old irest ipost :
  valid_part part = true ->
  Z.of_N M < 2 ^ 63 - 1 -> Z.of_N m < 2 ^ 63 - 1 -> Z.of_N P < 2 ^ 63 - 1 ->
  worktree r = index r -> index r = head r ->
  worktree r !! pyproject_path = Some (app pre ((version_key ++ dec_version M m P ++ dq_s) :: post)) ->
  Forall (fun l => match_assign version_key l = None) pre ->
  worktree r !! init_path = Some (app ipre ((init_key ++ old ++ dq_s ++ irest) :: ipost)) ->
  Forall (fun l => assign_value init_key l = None) ipre ->
  In ("v" ++ spec_bumped_version part M m P) (map fst (tags r)) ->
  exists r', release (part :: rest) r = (128, r') /\
    pyproject_version (worktree r') = spec_bumped_version part M m P /\
    init_version (worktree r') = Some (spec_bumped_version part M m P) /\
    index r' = worktree r' /\ head r' = worktree r' /\
    tags r' = tags r /\ pushed r' = pushed r.
Proof.
  intros Hp HM Hm HP Hwi Hih Hpy Hpre Hin Hipre Htag.
  destruct (release_run part rest M m P r pre post ipre old irest ipost
              Hp HM Hm HP (git_diff_quiet_clean r Hwi) Hih Hpy Hpre Hin Hipre)
    as (f1 & f2 & rest2 & PL & IL & _ & _ & Hpv & Hiv & Hrel).
  rewrite Hrel, tag_and_push_exists by exact Htag.
  eexists. split; [reflexivity|]. cbn [worktree index head tags pushed].
  rewrite <- Hwi. auto 7.
Qed.

(** Releases compose: on a checkout whose worktree, index and HEAD agree,
    at a version M.m.P written in decimal with numbers below 2^63 - 2 on
    the first [version = "..."] line of pyproject.toml, with a
    [__version__ = "..."] line in recallrai/__init__.py, where neither tag
    of the two releases exists yet and the remote accepts the pushes of
    main and of both tags: after a successful release from M.m.P, which
    leaves version M1.m1.P1, a second release bumps M1.m1.P1 in turn; both
    tags are created in order and main and each tag are pushed. *)
Theorem release_twice part1 rest1 part2 rest2 (M m P M1 m1 P1 : N) (r : repo) pre post ipre old irest ipost :
  valid_part part1 = true -> valid_part part2 = true ->
  Z.of_N M < 2 ^ 63 - 2 -> Z.of_N m < 2 ^ 63 - 2 -> Z.of_N P < 2 ^ 63 - 2 ->
  bump_triple part1 M m P = (M1, m1, P1) ->
  worktree r = index r -> index r = head r ->
  worktree r !! pyproject_path = Some (app pre ((version_key ++ dec_version M m P ++ dq_s) :: post)) ->
  Forall (fun l => match_assign version_key l = None) pre ->
  worktree r !! init_path = Some (app ipre ((init_key ++ old ++ dq_s ++ irest) :: ipost)) ->
  Forall (fun l => assign_value init_key l = None) ipre ->
  ~ In ("v" ++ spec_bumped_version part1 M m P) (map fst (tags r)) ->
  ~ In ("v" ++ spec_bumped_version part2 M1 m1 P1) (map fst (tags r)) ->
  ~ In "main" (remote_refuses r) ->
  ~ In ("v" ++ spec_bumped_version part1 M m P) (remote_refuses r) ->
  ~ In ("v" ++ spec_bumped_version part2 M1 m1 P1) (remote_refuses r) ->
  exists r1 r2, release (part1 :: rest1) r = (0, r1) /\ release (part2 :: rest2) r1 = (0, r2) /\
    pyproject_version (worktree r2) = spec_bumped_version part2 M1 m1 P1 /\
    init_version (worktree r2) = Some (spec_bumped_version part2 M1 m1 P1) /\
    map fst (tags r2) = app (map fst (tags r))
      ["v" ++ spec_bumped_version part1 M m P; "v" ++ spec_bumped_version part2 M1 m1 P1] /\
    pushed r2 = app (pushed r)
      ["main"; "v" ++ spec_bumped_version part1 M m P; "main"; "v" ++ spec_bumped_version part2 M1 m1 P1].
Proof.
  intros Hp1 Hp2 HM Hm HP Hb Hwi Hih Hpy Hpre Hin Hipre Ht1 Ht2 Hmain Hr1 Hr2.
  destruct (bump_triple_bounds _ _ _ _ _ _ _ Hb HM Hm HP) as (HM1 & Hm1 & HP1).
  pose proof (spec_bumped_version_triple _ _ _ _ _ _ _ Hp1 Hb) as Hv1.
  destruct (release_run part1 rest1 M m P r pre post ipre old irest ipost
              Hp1 ltac:(lia) ltac:(lia) ltac:(lia) (git_diff_quiet_clean r Hwi) Hih Hpy Hpre Hin Hipre)
    as (f1 & f2 & rest' & PL & IL & HPL & HIL & _ & _ & Hrel).
  rewrite Hv1 in Ht1, Hr1, Hrel, HIL, HPL |- *.
  rewrite tag_and_push_ok in Hrel by (apply tag_name_ok_version || assumption).
  rewrite <- Hwi in Hrel.
  match type of Hrel with _ = (0, ?R) => set (r1 := R) in Hrel end.
  assert (Hpy1 : worktree r1 !! pyproject_path =
                 Some (app pre ((version_key ++ dec_version M1 m1 P1 ++ dq_s) :: map f1 post))).
  { cbn [r1 worktree]. rewrite lookup_insert_ne by discriminate. rewrite lookup_insert_eq, HPL. reflexivity. }
  assert (Hin1 : worktree r1 !! init_path =
                 Some (app ipre ((init_key ++ dec_version M1 m1 P1 ++ dq_s ++ rest') :: map f2 ipost))).
  { cbn [r1 worktree]. rewrite lookup_insert_eq, HIL. reflexivity. }
  destruct (release_run part2 rest2 M1 m1 P1 r1 pre (map f1 post) ipre (dec_version M1 m1 P1) rest' (map f2 ipost)
              Hp2 HM1 Hm1 HP1 (git_diff_quiet_clean r1 eq_refl) eq_refl Hpy1 Hpre Hin1 Hipre)
    as (g1 & g2 & rest'' & PL2 & IL2 & _ & _ & Hpv2 & Hiv2 & Hrel2).
  assert (Ht2' : ~ In ("v" ++ spec_bumped_version part2 M1 m1 P1) (map fst (tags r1))).
  { cbn [r1 tags]. rewrite map_app, in_app_iff. intros [H|[H|[]]]; [exact (Ht2 H)|].
    cbn [fst] in H. apply (f_equal (strip_prefix "v")) in H. rewrite !strip_prefix_app in H.
    injection H as H. exact (spec_bumped_version_changes part2 M1 m1 P1 Hp2 (eq_sym H)). }
  destruct (spec_bumped_version_dec part2 M1 m1 P1 Hp2) as (M2 & m2 & P2 & Hdec2 & _).
  rewrite tag_and_push_ok in Hrel2;
    [| rewrite Hdec2; apply tag_name_ok_version | exact Ht2' | exact Hmain | exact Hr2].
  exists r1. eexists. split; [exact Hrel|]. split; [exact Hrel2|].
  cbn [worktree tags pushed]. split; [exact Hpv2|]. split; [exact Hiv2|].
  cbn [r1 worktree tags pushed].
  split; [rewrite !map_app, <- app_assoc; reflexivity | rewrite <- !app_assoc; reflexivity].
Qed.


Lemma new_version_without_version_line_witness :
  new_version "major" (current_version files_no_version) = Some "1.0.0" /\
  new_version "minor" (current_version files_no_version) = Some ".1.0" /\
  new_version "patch" (current_version files_no_version) = Some "..1".
Proof.
  apply new_version_without_version_line.
  intros ls H. vm_compute in H. injection H as <-. vm_compute. reflexivity.
Defined.




Lemma release_existing_tag_after_commit_witness :
  exists r', release ["patch"] tagged_repo = (128, r') /\
    pyproject_version (worktree r') = spec_bumped_version "patch" 0 2 0 /\
    init_version (worktree r') = Some (spec_bumped_version "patch" 0 2 0) /\
    index r' = worktree r' /\ head r' = worktree r' /\
    tags r' = tags tagged_repo /\ pushed r' = pushed tagged_repo.
Proof.
  apply (release_existing_tag_after_commit "patch" [] 0 2 0 tagged_repo
           ["[project]"; "name = " ++ dq_s ++ "recallrai" ++ dq_s]
           ["requires-python = " ++ dq_s ++ ">=3.8" ++ dq_s]
           ["from .client import RecallrAI"] "0.2.0" "" []).
  - reflexivity.
  - lia.
  - lia.
  - lia.
  - reflexivity.
  - reflexivity.
  - vm_compute. reflexivity.
  - repeat (constructor; [vm_compute; reflexivity|]). constructor.
  - vm_compute. reflexivity.
  - repeat (constructor; [vm_compute; reflexivity|]). constructor.
  - vm_compute. left. reflexivity.
Defined.

Lemma release_twice_witness :
  exists r1 r2, release ["patch"] (clean_repo "0.2.0") = (0, r1) /\ release ["minor"] r1 = (0, r2) /\
    pyproject_version (worktree r2) = spec_bumped_version "minor" 0 2 1 /\
    init_version (worktree r2) = Some (spec_bumped_version "minor" 0 2 1) /\
    map fst (tags r2) = app (map fst (tags (clean_repo "0.2.0")))
      ["v" ++ spec_bumped_version "patch" 0 2 0; "v" ++ spec_bumped_version "minor" 0 2 1] /\
    pushed r2 = app (pushed (clean_repo "0.2.0"))
      ["main"; "v" ++ spec_bumped_version "patch" 0 2 0; "main"; "v" ++ spec_bumped_version "minor" 0 2 1].
Proof.
  apply (release_twice "patch" [] "minor" [] 0 2 0 0 2 1 (clean_repo "0.2.0")
           ["[project]"; "name = " ++ dq_s ++ "recallrai" ++ dq_s]
           ["requires-python = " ++ dq_s ++ ">=3.8" ++ dq_s]
           ["from .client import RecallrAI"] "0.2.0" "" []).
  - reflexivity.
  - reflexivity.
  - lia.
  - lia.
  - lia.
  - reflexivity.
  - reflexivity.
  - reflexivity.
  - vm_compute. reflexivity.
  - repeat (constructor; [vm_compute; reflexivity|]). constructor.
  - vm_compute. reflexivity.
  - repeat (constructor; [vm_compute; reflexivity|]). constructor.
  - vm_compute. tauto.
  - vm_compute. tauto.
  - vm_compute. tauto.
  - vm_compute. tauto.
  - vm_compute. tauto.
Defined.


